(** * Time-keyed garbage collector: registry, allocation hook, smart pointer

    A shallow embedding of [src/main.cpp] and the properties of its
    natural-language specification.

    Conventions of the embedding.
    - A pointer ([void *], [T *]) is its numerical value, a [Z];
      [nullptr] is [0].
    - A [chrono::system_clock::time_point] is its tick count, a [Z]; the
      number of ticks per second is a parameter ([positive]).  Clock
      readings ([system_clock::now()]) are arguments of the functions that
      read the clock.  The difference of two readings is taken on 64 bits,
      with the wrap-around written out.
    - [std::vector<MemoryBlock>] is a [list MemoryBlock]; [push_back]
      appends at the end.  When a [push_back] has to grow the vector, and
      for how many bytes it then asks [operator new], is a parameter; a
      vector that grows moves its elements, and what still points to the
      old ones is no longer defined.
    - The functions that only touch the registry are computations in a
      small state monad over the object; the functions that allocate run
      on the state one thread sees and can throw or leave defined
      behaviour.  Both record heap events: [malloc] by [operator new],
      [free] by the registry, [delete] by a handle.  The storage a
      [std::vector] hands back itself is not recorded.  A [void] function
      returns [tt].
    - [recursive_mutex] sections are atomic: the calls of the main thread
      and of the timer thread are interleaved as a sequence of calls.
    - Console output is not modelled. *)

From Stdlib Require Import ZArith List Bool Lia.
From stdpp Require Import gmap.

Open Scope Z_scope.

(** ** Pointers and heap events *)

Abbreviation nullptr := 0%Z (only parsing).

(** The calls that reach the platform allocator. [Delete p] is a
    delete-expression on a non-null pointer (the default [operator delete],
    which the program does not replace, hands the block back). *)
Inductive event : Type :=
  | Malloc (size : Z) (p : Z)
  | Free (p : Z)
  | Delete (p : Z).

#[global] Instance event_eq_dec : EqDecision event.
Proof. solve_decision. Defined.

(** The address an event releases, if it is a release. *)
Definition released (e : event) : option Z :=
  match e with
  | Malloc _ _ => None
  | Free p => Some p
  | Delete p => Some p
  end.

Definition releases (p : Z) (e : event) : bool :=
  match released e with
  | Some q => q =? p
  | None => false
  end.

(** Number of times [p] is released along a trace. *)
Definition release_count (p : Z) (tr : list event) : nat :=
  length (List.filter (releases p) tr).

(** ** The effect monad: state passing plus a trace of heap events *)

Definition Eff (S A : Type) : Type := S -> A * S * list event.

Definition ret {S A : Type} (a : A) : Eff S A := fun s => (a, s, []).

Definition bind {S A B : Type} (m : Eff S A) (k : A -> Eff S B) : Eff S B :=
  fun s =>
    let '(a, s1, e1) := m s in
    let '(b, s2, e2) := k a s1 in
    (b, s2, e1 ++ e2).

Definition get {S : Type} : Eff S S := fun s => (s, s, []).
Definition put {S : Type} (s' : S) : Eff S unit := fun _ => (tt, s', []).
Definition emit {S : Type} (e : event) : Eff S unit := fun s => (tt, s, [e]).

Declare Scope eff_scope.
Delimit Scope eff_scope with eff.
Notation "x <- m ;; k" := (bind m (fun x => k))
  (at level 100, m at next level, right associativity) : eff_scope.
Notation "m ;;; k" := (bind m (fun _ => k))
  (at level 100, right associativity) : eff_scope.

Definition result_of {S A : Type} (r : A * S * list event) : A := fst (fst r).
Definition state_of {S A : Type} (r : A * S * list event) : S := snd (fst r).
Definition trace_of {S A : Type} (r : A * S * list event) : list event := snd r.

(** ** The registry: [MemoryBlock] and [GarbageCollector] *)

Record MemoryBlock : Type := mkBlock {
  address : Z;
  size : Z;
  allocationTime : Z;
  isFreed : bool
}.

#[global] Instance MemoryBlock_eq_dec : EqDecision MemoryBlock.
Proof. solve_decision. Defined.

(** The [thread] member is the timer thread; its iterations appear as
    [collectGarbage] calls in the sequences of calls below. *)
Record GarbageCollector : Type := mkGC {
  period : Z;
  memoryBlocks : list MemoryBlock;
  running : bool
}.

Definition set_memoryBlocks (bs : list MemoryBlock) (gc : GarbageCollector)
  : GarbageCollector :=
  {| period := period gc; memoryBlocks := bs; running := running gc |}.

Definition set_running (r : bool) (gc : GarbageCollector) : GarbageCollector :=
  {| period := period gc; memoryBlocks := memoryBlocks gc; running := r |}.

(** [GarbageCollector() : period(900)], with [running = true] and an empty
    vector. *)
Definition GarbageCollector_ctor : GarbageCollector :=
  {| period := 900; memoryBlocks := []; running := true |}.

Section Registry.

(** Ticks of [system_clock] per second. *)
Variable ticks_per_second : positive.

(** [duration_cast<chrono::seconds>(d).count()]: integer division that
    truncates toward zero. *)
Definition duration_cast_seconds (d : Z) : Z :=
  Z.quot d (Z.pos ticks_per_second).

(** The retention window of five seconds, in ticks. *)
Definition retention_window : Z := 5 * Z.pos ticks_per_second.

(** [addMemoryBlock]: the braced initialiser leaves [isFreed] at its
    default, [false]; [isReallocation] and [prevAddr] are not used. *)
Definition addMemoryBlock (address size : Z) (isReallocation : bool)
    (prevAddr : Z) (now : Z) : Eff GarbageCollector unit :=
  (if address =? nullptr then ret tt
   else
     let block := {| address := address; size := size;
                     allocationTime := now; isFreed := false |} in
     gc <- get ;;
     put (set_memoryBlocks (memoryBlocks gc ++ [block]) gc))%eff.

(** [createObject] wraps [addMemoryBlock]. *)
Definition createObject (address size : Z) (now : Z)
  : Eff GarbageCollector unit :=
  addMemoryBlock address size false nullptr now.

(** [checkExistingAllocation]: linear search with an early return. *)
Fixpoint find_address (a : Z) (blocks : list MemoryBlock) : bool :=
  match blocks with
  | [] => false
  | block :: rest => if address block =? a then true else find_address a rest
  end.

Definition checkExistingAllocation (a : Z) : Eff GarbageCollector bool :=
  (gc <- get ;; ret (find_address a (memoryBlocks gc)))%eff.

(** The loop of the destructor. *)
Fixpoint release_loop (blocks : list MemoryBlock) : Eff GarbageCollector unit :=
  match blocks with
  | [] => ret tt
  | block :: rest =>
      if negb (address block =? nullptr) then
        (emit (Free (address block)) ;;; release_loop rest)%eff
      else release_loop rest
  end.

(** Number of records stored for an address. *)
Definition records_for (a : Z) (blocks : list MemoryBlock) : nat :=
  length (List.filter (fun b => address b =? a) blocks).

(** The event of releasing a record. *)
Definition free_of (b : MemoryBlock) : event := Free (address b).

End Registry.

(** A stored record as the registry makes it: not flagged, not null. *)
Definition live_block (b : MemoryBlock) : Prop :=
  isFreed b = false /\ address b <> nullptr.

(** The outcomes the specification lists for its [register] operation; the
    functions of the program return [void]. *)
Inductive RegisterResult : Type :=
  | RecordId (n : nat)
  | InvalidAddress
  | DuplicateAddress.

(** ** The smart pointer [smartptr<T>] *)

(** One [smartptr] object: its only member is the raw pointer. *)
Record smartptr : Type := mkPtr { ptr : Z }.

#[global] Instance smartptr_eq_dec : EqDecision smartptr.
Proof. solve_decision. Defined.

(** The [smartptr] objects of the program, by object identity: what C++
    compares in [this != &other]. *)
Abbreviation handles := (gmap nat smartptr).

(** A delete-expression: nothing happens on a null pointer. *)
Definition delete_expr {S : Type} (p : Z) : Eff S unit :=
  if p =? nullptr then ret tt else emit (Delete p).

(** [smartptr(T *p = nullptr) : ptr(p) {}] *)
Definition smartptr_ctor (this : nat) (p : Z) : Eff handles unit :=
  (hs <- get ;; put (<[this := mkPtr p]> hs))%eff.

(** [~smartptr() {}]: the object goes away, its pointer is left alone. *)
Definition smartptr_dtor (this : nat) : Eff handles unit :=
  (hs <- get ;; put (delete this hs))%eff.

(** [smartptr &operator=(T *p) { ptr = p; return *this; }] *)
Definition smartptr_assign (this : nat) (p : Z) : Eff handles unit :=
  (hs <- get ;; put (alter (fun _ => mkPtr p) this hs))%eff.

(** [T *operator->() const { return ptr; }] *)
Definition smartptr_arrow (this : nat) : Eff handles (option Z) :=
  (hs <- get ;; ret (ptr <$> hs !! this))%eff.

(** [smartptr(smartptr &&other)]: [ptr = other.ptr; other.ptr = nullptr;] *)
Definition smartptr_move_ctor (this other : nat) : Eff handles unit :=
  (hs <- get ;;
   match hs !! other with
   | Some o =>
       put (alter (fun _ => mkPtr nullptr) other (<[this := mkPtr (ptr o)]> hs))
   | None => ret tt
   end)%eff.

(** [smartptr &operator=(smartptr &&other)]:
    [if (this != &other) { delete ptr; ptr = other.ptr; other.ptr = nullptr; }] *)
Definition smartptr_move_assign (this other : nat) : Eff handles unit :=
  (hs <- get ;;
   match hs !! this, hs !! other with
   | Some t, Some o =>
       if decide (this = other) then ret tt
       else
         (delete_expr (ptr t) ;;;
          put (alter (fun _ => mkPtr nullptr) other
                 (alter (fun _ => mkPtr (ptr o)) this hs)))
   | _, _ => ret tt
   end)%eff.

(** The operations of a handle. *)
Inductive handle_op : Type :=
  | HConstruct (this : nat) (p : Z)
  | HDestroy (this : nat)
  | HAssign (this : nat) (p : Z)
  | HMoveConstruct (this other : nat)
  | HMoveAssign (this other : nat).

Definition do_handle_op (op : handle_op) : Eff handles unit :=
  match op with
  | HConstruct this p => smartptr_ctor this p
  | HDestroy this => smartptr_dtor this
  | HAssign this p => smartptr_assign this p
  | HMoveConstruct this other => smartptr_move_ctor this other
  | HMoveAssign this other => smartptr_move_assign this other
  end.

(** The handle [h] holds the address [p]. *)
Definition owns (hs : handles) (h : nat) (p : Z) : Prop :=
  hs !! h = Some (mkPtr p).

(** No two handles hold the same non-null address. *)
Definition exclusive (hs : handles) : Prop :=
  forall h1 h2 p, p <> nullptr -> owns hs h1 p -> owns hs h2 p -> h1 = h2.

(** ** The process: registry, handles and the objects on the heap *)

Section Process.

Variable T : Type.

Record Process : Type := mkProcess {
  gc : GarbageCollector;
  owners : handles;
  heap : gmap Z T
}.

(** What a heap event does to the objects: a released block is gone. *)
Definition apply_event (h : gmap Z T) (e : event) : gmap Z T :=
  match released e with
  | Some p => delete p h
  | None => h
  end.

Definition apply_events (h : gmap Z T) (tr : list event) : gmap Z T :=
  fold_left apply_event tr h.

(** A member function of the registry, run inside the process. *)
Definition on_gc {A : Type} (m : Eff GarbageCollector A) : Eff Process A :=
  fun s =>
    let '(a, g, tr) := m (gc s) in
    (a, {| gc := g; owners := owners s; heap := apply_events (heap s) tr |}, tr).

(** A member function of a handle, run inside the process. *)
Definition on_handles {A : Type} (m : Eff handles A) : Eff Process A :=
  fun s =>
    let '(a, hs, tr) := m (owners s) in
    (a, {| gc := gc s; owners := hs; heap := apply_events (heap s) tr |}, tr).

(** [T &operator*() const { return *ptr; }]: the object at [ptr], if there
    is one ([None]: null or dangling pointer, undefined in C++). *)
Definition smartptr_deref (this : nat) (s : Process) : option T :=
  match owners s !! this with
  | Some h => heap s !! ptr h
  | None => None
  end.

End Process.

Arguments gc {T} _.
Arguments owners {T} _.
Arguments heap {T} _.
Arguments apply_event {T} _ _.
Arguments apply_events {T} _ _.
Arguments on_gc {T A} _ _.
Arguments on_handles {T A} _ _.
Arguments smartptr_deref {T} _ _.

(** From [s] to [s'] the address [p] went from the handle [src] to the
    handle [dst]: [src] is empty, [dst] holds [p], the other handles and the
    registry are as they were; and if no address had two holders, then
    [dst] is the one holder of [p], still no address has two holders, and
    [*dst] is what [*src] was. *)
Definition ownership_moved {T : Type} (p : Z) (src dst : nat)
    (s s' : Process T) : Prop :=
  owns (owners s') src nullptr
  /\ owns (owners s') dst p
  /\ (forall h, h <> src -> h <> dst -> owners s' !! h = owners s !! h)
  /\ gc s' = gc s
  /\ (exclusive (owners s) ->
      (forall h, owns (owners s') h p -> h = dst)
      /\ exclusive (owners s')
      /\ smartptr_deref dst s' = smartptr_deref src s).

(** ** The allocation hook: [operator new] and [GetInstance] *)

(** How a call that may throw ends. [Undefined]: the caller went on with a
    null pointer where C++ requires storage (no defined behaviour). *)
Inductive outcome (A : Type) : Type :=
  | Returns (a : A)
  | Throws_bad_alloc
  | Undefined.

Arguments Returns {A} _.
Arguments Throws_bad_alloc {A}.
Arguments Undefined {A}.

(** The state one thread of the program sees: the static [instance]
    ([None] is [nullptr]), its own [thread_local] flag of [operator new],
    and the answers [malloc] is going to give ([nullptr] for a refusal;
    when the list is used up, [malloc] refuses). *)
Record World : Type := mkWorld {
  instance : option GarbageCollector;
  isRecursive : bool;
  arena : list Z
}.

Definition set_instance (i : option GarbageCollector) (w : World) : World :=
  {| instance := i; isRecursive := isRecursive w; arena := arena w |}.

Definition set_isRecursive (b : bool) (w : World) : World :=
  {| instance := instance w; isRecursive := b; arena := arena w |}.

Definition malloc (size : Z) : Eff World Z :=
  fun w =>
    match arena w with
    | [] => (nullptr, w, [Malloc size nullptr])
    | p :: rest =>
        (p, {| instance := instance w; isRecursive := isRecursive w;
               arena := rest |}, [Malloc size p])
    end.

(** A computation that can run out of recursion depth ([None]). *)
Definition Deep (A : Type) : Type := World -> option (outcome A * World * list event).

Section Interceptor.

(** [sizeof(GarbageCollector)]. *)
Variable sizeof_GarbageCollector : Z.

(** Sizes of the blocks the constructor of [std::thread] asks [operator
    new] for. *)
Variable thread_allocs : list Z.

(** Sizes of the blocks [memoryBlocks.push_back] asks [operator new] for,
    given the content of the vector (none while the capacity suffices). *)
Variable push_back_allocs : list MemoryBlock -> list Z.

(** The allocations a library or a new-expression makes through
    [operator new], one after the other; [alloc] is [operator new]. *)
Fixpoint nested_allocs (alloc : Z -> Deep Z) (sizes : list Z) : Deep unit :=
  fun w =>
    match sizes with
    | [] => Some (Returns tt, w, [])
    | sz :: rest =>
        match alloc sz w with
        | None => None
        | Some (Returns p, w1, e1) =>
            if p =? nullptr then Some (Undefined, w1, e1)
            else
              match nested_allocs alloc rest w1 with
              | None => None
              | Some (o, w2, e2) => Some (o, w2, e1 ++ e2)
              end
        | Some (Throws_bad_alloc, w1, e1) => Some (Throws_bad_alloc, w1, e1)
        | Some (Undefined, w1, e1) => Some (Undefined, w1, e1)
        end
    end.

(** [GetInstance]: on first use, [instance = new GarbageCollector()]; the
    constructor starts the timer thread. *)
Definition GetInstance (alloc : Z -> Deep Z) : Deep unit :=
  fun w =>
    match instance w with
    | Some _ => Some (Returns tt, w, [])
    | None =>
        match nested_allocs alloc (sizeof_GarbageCollector :: thread_allocs) w with
        | None => None
        | Some (Returns _, w1, e1) =>
            Some (Returns tt, set_instance (Some GarbageCollector_ctor) w1, e1)
        | Some (Throws_bad_alloc, w1, e1) => Some (Throws_bad_alloc, w1, e1)
        | Some (Undefined, w1, e1) => Some (Undefined, w1, e1)
        end
    end.

(** [gc.createObject(ptr, size)] as the hook calls it: the vector may grow
    (through [operator new]) before the record is stored. *)
Definition gc_createObject (alloc : Z -> Deep Z) (p size now : Z) : Deep unit :=
  fun w =>
    match instance w with
    | None => Some (Undefined, w, [])
    | Some g =>
        let growth := if p =? nullptr then [] else push_back_allocs (memoryBlocks g) in
        match nested_allocs alloc growth w with
        | None => None
        | Some (Returns _, w1, e1) =>
            match instance w1 with
            | None => Some (Undefined, w1, e1)
            | Some g1 =>
                let '(_, g2, e2) := createObject p size now g1 in
                Some (Returns tt, set_instance (Some g2) w1, e1 ++ e2)
            end
        | Some (Throws_bad_alloc, w1, e1) => Some (Throws_bad_alloc, w1, e1)
        | Some (Undefined, w1, e1) => Some (Undefined, w1, e1)
        end
    end.

(** [void *operator new(size_t size)], with the depth of calls bounded by
    [depth]; [now] is what the clock shows when the record is made. *)
Fixpoint operator_new (depth : nat) (size now : Z) : Deep Z :=
  fun w =>
    match depth with
    | O => None
    | S depth' =>
        if isRecursive w then
          let '(p, w1, e1) := malloc size w in Some (Returns p, w1, e1)
        else
          let w0 := set_isRecursive true w in
          let '(p, w1, e1) := malloc size w0 in
          if p =? nullptr then Some (Throws_bad_alloc, w1, e1)
          else
            match GetInstance (fun sz => operator_new depth' sz now) w1 with
            | None => None
            | Some (Returns _, w2, e2) =>
                match gc_createObject (fun sz => operator_new depth' sz now)
                        p size now w2 with
                | None => None
                | Some (Returns _, w3, e3) =>
                    Some (Returns p, set_isRecursive false w3, e1 ++ e2 ++ e3)
                | Some (Throws_bad_alloc, w3, e3) =>
                    Some (Throws_bad_alloc, w3, e1 ++ e2 ++ e3)
                | Some (Undefined, w3, e3) => Some (Undefined, w3, e1 ++ e2 ++ e3)
                end
            | Some (Throws_bad_alloc, w2, e2) => Some (Throws_bad_alloc, w2, e1 ++ e2)
            | Some (Undefined, w2, e2) => Some (Undefined, w2, e1 ++ e2)
            end
    end.

End Interceptor.

(** ** The sweep, the destructor and sequences of calls *)

(** The difference of two clock readings, as the 64-bit subtraction gives
    it (an overflow wraps around on the machine; C++ leaves it undefined). *)
Definition int64_wrap (z : Z) : Z := (z + 2 ^ 63) mod 2 ^ 64 - 2 ^ 63.

Definition in_int64 (z : Z) : Prop := - 2 ^ 63 <= z < 2 ^ 63.

Definition ticks_between (now t : Z) : Z := int64_wrap (now - t).

(** The addresses a trace passes to [free]. *)
Definition frees (tr : list event) : list Z :=
  flat_map (fun e => match e with Free p => [p] | _ => [] end) tr.

(** An instance of the growth parameter, for examples: the vector of
    libstdc++ doubles its capacity (0, 1, 2, 4, 8, ...) and a [MemoryBlock]
    takes 32 bytes.  [capacity_from cap n] is the capacity a vector that
    only grew by [push_back] has at [n] elements. *)
Fixpoint capacity_from (fuel cap n : nat) : nat :=
  if (n <=? cap)%nat then cap
  else match fuel with
       | O => cap
       | S fuel' => capacity_from fuel' (Nat.max 1 (2 * cap)) n
       end.

Definition doubling_allocs (bs : list MemoryBlock) : list Z :=
  let n := length bs in
  if (capacity_from n 0 n =? n)%nat
  then [32 * Z.of_nat (Nat.max 1 (2 * n))]
  else [].

Section Sweep.

Variable ticks_per_second : positive.
Variable sizeof_GarbageCollector : Z.
Variable thread_allocs : list Z.
Variable push_back_allocs : list MemoryBlock -> list Z.

(** [operator new] as the program replaced it. *)
Local Abbreviation new_ :=
  (operator_new sizeof_GarbageCollector thread_allocs push_back_allocs).

(** A [push_back] on a vector with these elements has to grow it. *)
Definition needs_growth (bs : list MemoryBlock) : bool :=
  match push_back_allocs bs with
  | [] => false
  | _ :: _ => true
  end.

(** An allocation through [operator new] in this state moves the elements
    of [memoryBlocks]: the thread is outside the registration path, so the
    block is registered, and the [push_back] of the registration has to
    grow the vector. *)
Definition registration_moves (w : World) : bool :=
  negb (isRecursive w)
  && match instance w with
     | Some g => needs_growth (memoryBlocks g)
     | None => false
     end.

(** The storage a growing vector asks [operator new] for, block by block;
    the result tells whether [memoryBlocks] was moved on the way.
    [registered_at] is the clock reading of the registrations. *)
Fixpoint allocate_storage (depth : nat) (registered_at : Z) (sizes : list Z)
  : Deep bool :=
  fun w =>
    match sizes with
    | [] => Some (Returns false, w, [])
    | sz :: rest =>
        let moves := registration_moves w in
        match new_ depth sz registered_at w with
        | None => None
        | Some (Returns p, w1, e1) =>
            if p =? nullptr then Some (Undefined, w1, e1)
            else
              match allocate_storage depth registered_at rest w1 with
              | None => None
              | Some (Returns moved, w2, e2) =>
                  Some (Returns (moves || moved), w2, e1 ++ e2)
              | Some (Throws_bad_alloc, w2, e2) =>
                  Some (Throws_bad_alloc, w2, e1 ++ e2)
              | Some (Undefined, w2, e2) => Some (Undefined, w2, e1 ++ e2)
              end
        | Some (Throws_bad_alloc, w1, e1) => Some (Throws_bad_alloc, w1, e1)
        | Some (Undefined, w1, e1) => Some (Undefined, w1, e1)
        end
    end.

(** The range-for of [collectGarbage] over the blocks still to visit, the
    elements [memoryBlocks] had when the loop began; [newBlocks] and
    [collected] are the locals of the function.  [newBlocks.push_back]
    takes its storage from [operator new] on the thread that sweeps; the
    registration this makes appends to [memoryBlocks] behind the end the
    loop read when it began (records the loop does not visit), and when it
    moves the elements of [memoryBlocks], [block] and the loop refer to
    released storage.  [clock k] is the clock reading of the
    registration made when [newBlocks] has [k] elements. *)
Fixpoint collect_loop (depth : nat) (now : Z) (clock : nat -> Z)
    (blocks newBlocks : list MemoryBlock) (collected : bool)
  : Deep (list MemoryBlock * bool) :=
  fun w =>
    match blocks with
    | [] => Some (Returns (newBlocks, collected), w, [])
    | block :: rest =>
        if isFreed block then
          collect_loop depth now clock rest newBlocks collected w
        else
          let duration :=
            duration_cast_seconds ticks_per_second
              (ticks_between now (allocationTime block)) in
          if 5 <=? duration then
            match collect_loop depth now clock rest newBlocks true w with
            | None => None
            | Some (o, w1, e1) => Some (o, w1, Free (address block) :: e1)
            end
          else
            match allocate_storage depth (clock (length newBlocks))
                    (push_back_allocs newBlocks) w with
            | None => None
            | Some (Returns moved, w1, e1) =>
                if moved then Some (Undefined, w1, e1)
                else
                  match collect_loop depth now clock rest
                          (newBlocks ++ [block]) collected w1 with
                  | None => None
                  | Some (o, w2, e2) => Some (o, w2, e1 ++ e2)
                  end
            | Some (Throws_bad_alloc, w1, e1) => Some (Throws_bad_alloc, w1, e1)
            | Some (Undefined, w1, e1) => Some (Undefined, w1, e1)
            end
    end.

(** [collectGarbage]: the loop, then [memoryBlocks = std::move(newBlocks)].
    An exception leaves [memoryBlocks] as the loop had it.  The function is
    a member of the registry: the timer thread and [manualGarbage] call it
    on the singleton that the first [new] has created, and a call without
    an object has no defined result here. *)
Definition collectGarbage (depth : nat) (now : Z) (clock : nat -> Z)
  : Deep unit :=
  fun w =>
    match instance w with
    | None => Some (Undefined, w, [])
    | Some g =>
        match collect_loop depth now clock (memoryBlocks g) [] false w with
        | None => None
        | Some (Returns r, w1, e1) =>
            match instance w1 with
            | None => Some (Undefined, w1, e1)
            | Some g1 =>
                Some (Returns tt,
                      set_instance (Some (set_memoryBlocks (fst r) g1)) w1, e1)
            end
        | Some (Throws_bad_alloc, w1, e1) => Some (Throws_bad_alloc, w1, e1)
        | Some (Undefined, w1, e1) => Some (Undefined, w1, e1)
        end
    end.

(** [manualGarbage] runs a sweep on the singleton, on the calling thread. *)
Definition manualGarbage (depth : nat) (now : Z) (clock : nat -> Z)
  : Deep unit :=
  collectGarbage depth now clock.

(** A computation of another thread, which has its own flag. *)
Definition on_thread {A : Type} (flag : bool) (m : Deep A) : Deep A :=
  fun w =>
    match m (set_isRecursive flag w) with
    | None => None
    | Some (o, w1, e1) => Some (o, set_isRecursive (isRecursive w) w1, e1)
    end.

(** [~GarbageCollector()]: [running = false]; [th.join()], during which
    the timer thread, if it was asleep, wakes up and sweeps once more
    ([pending]: the clock readings of that sweep) before it tests [running]
    again; the release loop; [memoryBlocks.clear()].  The flag of the timer
    thread is clear when it sweeps: it is set for good only by an exception
    of [operator new], and an exception that leaves [timer] ends the
    program.  Nothing in the program deletes the singleton, so this is what
    the destructor does if a caller runs it. *)
Definition GarbageCollector_dtor (depth : nat)
    (pending : option (Z * (nat -> Z))) : Deep unit :=
  fun w =>
    match instance w with
    | None => Some (Undefined, w, [])
    | Some g =>
        let w0 := set_instance (Some (set_running false g)) w in
        let joined :=
          match pending with
          | None => Some (Returns tt, w0, [])
          | Some (now, clock) =>
              on_thread false (collectGarbage depth now clock) w0
          end in
        match joined with
        | None => None
        | Some (Returns _, w1, e1) =>
            match instance w1 with
            | None => Some (Undefined, w1, e1)
            | Some g1 =>
                let '(_, g2, e2) := release_loop (memoryBlocks g1) g1 in
                Some (Returns tt,
                      set_instance (Some (set_memoryBlocks [] g2)) w1,
                      e1 ++ e2)
            end
        | Some (Throws_bad_alloc, w1, e1) => Some (Throws_bad_alloc, w1, e1)
        | Some (Undefined, w1, e1) => Some (Undefined, w1, e1)
        end
    end.

(** *** Sequences of calls *)

(** What the program does with the registry: it allocates with [new], and
    the timer thread or [manualGarbage] sweeps.  A call that returns leaves
    the flag of its thread as it found it, so that in a sequence of calls
    that return one flag stands for the flags of both threads. *)
Inductive call : Type :=
  | CallNew (size now : Z)
  | CallCollectGarbage (now : Z) (clock : nat -> Z).

(** The state a call starts in, with the answers [malloc] gives during the
    call. *)
Definition with_answers (answers : list Z) (w : World) : World :=
  {| instance := instance w; isRecursive := isRecursive w; arena := answers |}.

(** One call; the result lists the pointer a [new] returned. *)
Definition do_call (depth : nat) (c : call) (answers : list Z)
  : Deep (list Z) :=
  fun w =>
    match c with
    | CallNew sz now =>
        match new_ depth sz now (with_answers answers w) with
        | None => None
        | Some (Returns p, w1, e1) => Some (Returns [p], w1, e1)
        | Some (Throws_bad_alloc, w1, e1) => Some (Throws_bad_alloc, w1, e1)
        | Some (Undefined, w1, e1) => Some (Undefined, w1, e1)
        end
    | CallCollectGarbage now clock =>
        match collectGarbage depth now clock (with_answers answers w) with
        | None => None
        | Some (Returns _, w1, e1) => Some (Returns [], w1, e1)
        | Some (Throws_bad_alloc, w1, e1) => Some (Throws_bad_alloc, w1, e1)
        | Some (Undefined, w1, e1) => Some (Undefined, w1, e1)
        end
    end.

(** A sequence of calls, as far as every call returns; the result lists the
    pointers the [new]s returned. *)
Fixpoint do_calls (depth : nat) (cs : list (call * list Z)) : Deep (list Z) :=
  fun w =>
    match cs with
    | [] => Some (Returns [], w, [])
    | (c, answers) :: rest =>
        match do_call depth c answers w with
        | None => None
        | Some (Returns ps, w1, e1) =>
            match do_calls depth rest w1 with
            | None => None
            | Some (Returns qs, w2, e2) => Some (Returns (ps ++ qs), w2, e1 ++ e2)
            | Some (Throws_bad_alloc, w2, e2) =>
                Some (Throws_bad_alloc, w2, e1 ++ e2)
            | Some (Undefined, w2, e2) => Some (Undefined, w2, e1 ++ e2)
            end
        | Some (Throws_bad_alloc, w1, e1) => Some (Throws_bad_alloc, w1, e1)
        | Some (Undefined, w1, e1) => Some (Undefined, w1, e1)
        end
    end.

(** The program before its first allocation on a thread, and the states
    it is in between two calls as long as every call has returned. *)
Definition fresh : World :=
  {| instance := None; isRecursive := false; arena := [] |}.

Definition reachable (w : World) : Prop :=
  exists cs ps e, do_calls 2 cs fresh = Some (Returns ps, w, e).

(** The records a sweep at [now] finds due, keeps and releases. *)
Definition due (now : Z) (b : MemoryBlock) : bool :=
  5 <=? duration_cast_seconds ticks_per_second
          (ticks_between now (allocationTime b)).

Definition kept (now : Z) (b : MemoryBlock) : bool :=
  negb (isFreed b) && negb (due now b).

Definition doomed (now : Z) (b : MemoryBlock) : bool :=
  negb (isFreed b) && due now b.

End Sweep.

(** From [w] to [w'] the registry kept its settings and its records, and
    may have got more records at the end. *)
Definition registry_grew (w w' : World) : Prop :=
  exists g g',
    instance w = Some g /\ instance w' = Some g'
    /\ period g' = period g /\ running g' = running g
    /\ exists extra, memoryBlocks g' = memoryBlocks g ++ extra.

(** The state between two calls when every call so far has returned: the
    flag of the thread is clear, and the registry, once it exists, has the
    settings of its constructor and stores records that are not flagged and
    not null. *)
Definition settled (w : World) : Prop :=
  isRecursive w = false
  /\ match instance w with
     | Some g =>
         period g = 900 /\ running g = true
         /\ Forall live_block (memoryBlocks g)
     | None => True
     end.

(** The records the registry stores (none before it exists). *)
Definition stored (w : World) : list MemoryBlock :=
  match instance w with
  | Some g => memoryBlocks g
  | None => []
  end.

(** * Properties *)

(** ** The registry *)

Lemma duration_cast_seconds_ge (tps : positive) (d : Z) :
  (5 <=? duration_cast_seconds tps d) = (retention_window tps <=? d).
Proof.
  unfold duration_cast_seconds, retention_window.
  assert (Hk : 0 < Z.pos tps) by lia.
  destruct (Z.leb_spec (5 * Z.pos tps) d) as [Hge | Hlt].
  - apply Z.leb_le. rewrite Z.quot_div_nonneg by lia.
    apply Z.div_le_lower_bound; lia.
  - apply Z.leb_gt. destruct (Z.le_gt_cases 0 d) as [Hd | Hd].
    + rewrite Z.quot_div_nonneg by lia. apply Z.div_lt_upper_bound; lia.
    + assert (d ÷ Z.pos tps <= 0); [| lia].
      apply Z.quot_le_upper_bound; lia.
Qed.

Lemma createObject_eq a sz now g :
  createObject a sz now g =
  (tt,
   if a =? nullptr then g
   else set_memoryBlocks (memoryBlocks g ++ [mkBlock a sz now false]) g,
   []).
Proof.
  unfold createObject, addMemoryBlock. destruct (a =? 0); reflexivity.
Qed.

Lemma release_loop_eq blocks : forall g,
  release_loop blocks g =
  (tt, g, map free_of (List.filter (fun b => negb (address b =? nullptr)) blocks)).
Proof.
  induction blocks as [| b rest IH]; intros g; simpl; [reflexivity |].
  destruct (negb (address b =? 0)); simpl.
  - unfold bind, emit. now rewrite IH.
  - apply IH.
Qed.

Lemma release_count_app p tr1 tr2 :
  release_count p (tr1 ++ tr2) = (release_count p tr1 + release_count p tr2)%nat.
Proof. unfold release_count. now rewrite List.filter_app, length_app. Qed.

Lemma records_for_app a bs1 bs2 :
  records_for a (bs1 ++ bs2) = (records_for a bs1 + records_for a bs2)%nat.
Proof. unfold records_for. now rewrite List.filter_app, length_app. Qed.

Lemma find_address_true a bs :
  find_address a bs = true <-> exists b, In b bs /\ address b = a.
Proof.
  induction bs as [| x rest IH]; simpl.
  - split; [discriminate | intros (b & [] & _)].
  - destruct (Z.eqb_spec (address x) a) as [Heq | Hne].
    + split; [| reflexivity]. intros _. exists x. auto.
    + rewrite IH. split.
      * intros (b & Hb & Ha). exists b. auto.
      * intros (b & [-> | Hb] & Ha); [contradiction |]. exists b. auto.
Qed.

Lemma find_address_false a bs :
  find_address a bs = false <-> forall b, In b bs -> address b <> a.
Proof.
  destruct (find_address a bs) eqn:E.
  - split; [discriminate |]. intros H.
    apply find_address_true in E as (b & Hb & Ha). now destruct (H b Hb).
  - split; [| reflexivity]. intros _ b Hb Ha.
    assert (find_address a bs = true) by (apply find_address_true; eauto).
    congruence.
Qed.

(** ** C2: registrations of an address that is already stored *)

(** The program at a concrete input: the address 16 is registered twice.
    The second call finds it stored, stores a second record all the same,
    and leaves two records for 16. *)
Lemma second_register_inserts :
  let g1 := state_of (createObject 16 4 0 GarbageCollector_ctor) in
  let g2 := state_of (createObject 16 4 1 g1) in
  result_of (checkExistingAllocation 16 g1) = true
  /\ memoryBlocks g2 <> memoryBlocks g1
  /\ ~ (records_for 16 (memoryBlocks g2) <= 1)%nat.
Proof.
  intros g1 g2. split; [reflexivity | split].
  - vm_compute. discriminate.
  - vm_compute. lia.
Qed.

(** C2, amended. Registration makes no check for duplicates: [createObject]
    on a non-null address appends one record for it, with the clock reading
    and the flag unset, whatever the vector holds; it reports nothing, and
    the records already stored stay as they are.  When the address was
    stored before, the vector holds at least two records for it
    afterwards. *)
Theorem register_always_appends (a sz now : Z) (g : GarbageCollector) :
  a <> nullptr ->
  let r := createObject a sz now g in
  result_of r = tt
  /\ trace_of r = []
  /\ memoryBlocks (state_of r) = memoryBlocks g ++ [mkBlock a sz now false]
  /\ records_for a (memoryBlocks (state_of r))
     = S (records_for a (memoryBlocks g))
  /\ result_of (checkExistingAllocation a (state_of r)) = true
  /\ (result_of (checkExistingAllocation a g) = true ->
      (2 <= records_for a (memoryBlocks (state_of r)))%nat).
Proof.
  intros Hne r. subst r. rewrite createObject_eq.
  apply Z.eqb_neq in Hne. rewrite Hne.
  unfold result_of, state_of, trace_of, checkExistingAllocation, bind, get, ret.
  cbn [fst snd memoryBlocks set_memoryBlocks].
  assert (Hcount : records_for a (memoryBlocks g ++ [mkBlock a sz now false])
                   = S (records_for a (memoryBlocks g))).
  { rewrite records_for_app. unfold records_for at 2. simpl.
    rewrite Z.eqb_refl. simpl. lia. }
  repeat split; try exact Hcount.
  - apply find_address_true. exists (mkBlock a sz now false).
    split; [apply List.in_or_app; right; left |]; reflexivity.
  - intros Hseen. rewrite Hcount.
    apply find_address_true in Hseen as (b & Hb & Ha).
    assert (In b (List.filter (fun b => address b =? a) (memoryBlocks g))).
    { apply List.filter_In. split; [exact Hb |]. now apply Z.eqb_eq. }
    unfold records_for.
    destruct (List.filter (fun b => address b =? a) (memoryBlocks g));
      [contradiction | simpl; lia].
Qed.

Lemma register_always_appends_witness :
  16 <> nullptr
  /\ memoryBlocks (state_of (createObject 16 4 7 GarbageCollector_ctor))
     = [mkBlock 16 4 7 false].
Proof.
  assert (H : 16 <> nullptr) by discriminate.
  split; [exact H |].
  exact (proj1 (proj2 (proj2
           (register_always_appends 16 4 7 GarbageCollector_ctor H)))).
Defined.

(** ** C4: registration of a null address *)

(** The program at a concrete input: [createObject] returns the same
    nothing for a null address as for an address it stores, so no reading of
    its result tells [InvalidAddress] from a registration. *)
Lemma null_register_reports_nothing :
  ~ exists obs : unit -> RegisterResult,
      obs (result_of (createObject nullptr 4 0 GarbageCollector_ctor))
      = InvalidAddress
      /\ obs (result_of (createObject 16 4 0 GarbageCollector_ctor))
         <> InvalidAddress.
Proof.
  intros (obs & Hnull & Hok). apply Hok. exact Hnull.
Qed.

(** C4, amended. [createObject] (and [addMemoryBlock]) on a null address
    returns at once: nothing is reported (the function is [void]), no record
    is made, nothing is released, and the registry, with its vector and the
    number of its records, is what it was. *)
Theorem null_register_is_noop (sz now : Z) (g : GarbageCollector) :
  createObject nullptr sz now g = (tt, g, [])
  /\ (forall realloc prev,
        addMemoryBlock nullptr sz realloc prev now g = (tt, g, []))
  /\ memoryBlocks (state_of (createObject nullptr sz now g)) = memoryBlocks g
  /\ length (memoryBlocks (state_of (createObject nullptr sz now g)))
     = length (memoryBlocks g).
Proof. repeat split. Qed.

(** ** The handles *)

Lemma smartptr_move_ctor_eq (this other : nat) (hs : handles) (o : smartptr) :
  hs !! other = Some o ->
  smartptr_move_ctor this other hs =
  (tt, alter (fun _ => mkPtr nullptr) other (<[this := mkPtr (ptr o)]> hs), []).
Proof.
  intros H. unfold smartptr_move_ctor, bind, get. rewrite H. reflexivity.
Qed.

Lemma smartptr_move_assign_eq (this other : nat) (hs : handles)
    (t o : smartptr) :
  this <> other ->
  hs !! this = Some t ->
  hs !! other = Some o ->
  smartptr_move_assign this other hs =
  (tt,
   alter (fun _ => mkPtr nullptr) other (alter (fun _ => mkPtr (ptr o)) this hs),
   if ptr t =? nullptr then [] else [Delete (ptr t)]).
Proof.
  intros Hne Ht Ho. unfold smartptr_move_assign, bind, get. rewrite Ht, Ho.
  destruct (decide (this = other)) as [Heq | _]; [contradiction |].
  unfold delete_expr. destruct (ptr t =? 0); reflexivity.
Qed.

(** Construction, destruction, assignment of a raw pointer and move
    construction call neither [free] nor [delete]. *)
Lemma handle_op_silent (op : handle_op) (hs : handles) :
  (forall this other, op <> HMoveAssign this other) ->
  trace_of (do_handle_op op hs) = [].
Proof.
  intros Hop. destruct op as [this p | this | this p | this other | this other];
    simpl; try reflexivity.
  - unfold smartptr_move_ctor, bind, get, trace_of.
    destruct (hs !! other); reflexivity.
  - now destruct (Hop this other).
Qed.

(** Move assignment deletes what the destination held. *)
Lemma move_assign_releases (this other : nat) (hs : handles) (q : Z)
    (o : smartptr) :
  this <> other ->
  owns hs this q ->
  q <> nullptr ->
  hs !! other = Some o ->
  trace_of (smartptr_move_assign this other hs) = [Delete q].
Proof.
  intros Hne Ht Hq Ho.
  rewrite (smartptr_move_assign_eq this other hs (mkPtr q) o Hne Ht Ho).
  unfold trace_of. simpl. apply Z.eqb_neq in Hq. now rewrite Hq.
Qed.

Section ProcessFacts.

Variable T : Type.

Lemma apply_events_gone (tr : list event) : forall (h : gmap Z T) (q : Z),
  h !! q = None -> apply_events h tr !! q = None.
Proof.
  induction tr as [| e rest IH]; intros h q Hq; [exact Hq |].
  simpl. apply IH. unfold apply_event.
  destruct (released e) as [p |]; [| exact Hq].
  destruct (decide (p = q)) as [-> | Hne].
  - apply lookup_delete_eq.
  - now rewrite lookup_delete_ne.
Qed.

(** A released object is gone from the heap. *)
Lemma apply_events_released (tr : list event) : forall (h : gmap Z T) e q,
  In e tr -> released e = Some q -> apply_events h tr !! q = None.
Proof.
  induction tr as [| e' rest IH]; intros h e q Hin Hrel; [destruct Hin |].
  simpl. destruct Hin as [-> | Hin].
  - apply apply_events_gone. unfold apply_event. rewrite Hrel.
    apply lookup_delete_eq.
  - now apply (IH _ e).
Qed.

End ProcessFacts.

Lemma apply_events_frame {T : Type} (tr : list event) :
  forall (h : gmap Z T) (q : Z),
    (forall e, In e tr -> released e <> Some q) ->
    apply_events h tr !! q = h !! q.
Proof.
  induction tr as [| e rest IH]; intros h q Hq; [reflexivity |].
  simpl. rewrite IH by (intros e' He'; apply Hq; now right).
  unfold apply_event. pose proof (Hq e (or_introl eq_refl)) as He.
  destruct (released e) as [p |]; [| reflexivity].
  apply lookup_delete_ne. congruence.
Qed.

(** ** C7: moves transfer ownership *)

(** C7. Let the handle [src] hold the non-null address [p].  Move
    construction of a handle [dst] from [src], and move assignment of [src]
    to another, existing handle [dst], leave [src] empty and [dst] holding
    [p], and touch no other handle.  If no address was held by two handles
    before, then [dst] is the one holder of [p] afterwards, still no address
    has two holders, and [*dst] is the object [*src] was. *)
Theorem move_transfers_ownership (T : Type) (s : Process T) (src dst : nat)
    (p : Z) :
  p <> nullptr ->
  owns (owners s) src p ->
  dst <> src ->
  ownership_moved p src dst s
    (state_of (on_handles (smartptr_move_ctor dst src) s))
  /\ (is_Some (owners s !! dst) ->
      ownership_moved p src dst s
        (state_of (on_handles (smartptr_move_assign dst src) s))).
Proof.
  intros Hp Hsrc Hne.
  assert (Hmoved : forall hs' : handles, forall hp' : gmap Z T,
    (forall h, hs' !! h =
               if decide (h = src) then Some (mkPtr nullptr)
               else if decide (h = dst) then Some (mkPtr p)
               else owners s !! h) ->
    (exclusive (owners s) -> hp' !! p = heap s !! p) ->
    ownership_moved p src dst s {| gc := gc s; owners := hs'; heap := hp' |}).
  { intros hs' hp' Hlook Hheap. unfold ownership_moved, owns. simpl.
    assert (Hs : hs' !! src = Some (mkPtr nullptr)).
    { rewrite Hlook. now destruct (decide (src = src)). }
    assert (Hd : hs' !! dst = Some (mkPtr p)).
    { rewrite Hlook. destruct (decide (dst = src)); [contradiction |].
      now destruct (decide (dst = dst)). }
    split; [exact Hs | split; [exact Hd | split; [| split; [reflexivity |]]]].
    { intros h Hhs Hhd. rewrite Hlook.
      destruct (decide (h = src)); [contradiction |].
      now destruct (decide (h = dst)). }
    intros Hex.
    assert (Hone : forall h, hs' !! h = Some (mkPtr p) -> h = dst).
    { intros h Hh. rewrite Hlook in Hh.
      destruct (decide (h = src)) as [-> | Hhs].
      - injection Hh as Hh. now destruct Hp.
      - destruct (decide (h = dst)) as [-> | Hhd]; [reflexivity |].
        now destruct (Hhs (Hex h src p Hp Hh Hsrc)). }
    split; [exact Hone | split].
    - intros h1 h2 p' Hp' H1 H2. unfold owns in *.
      rewrite Hlook in H1. rewrite Hlook in H2.
      destruct (decide (h1 = src)) as [-> | Hs1];
        [injection H1 as H1; now destruct Hp' |].
      destruct (decide (h2 = src)) as [-> | Hs2];
        [injection H2 as H2; now destruct Hp' |].
      destruct (decide (h1 = dst)) as [-> | Hd1].
      + injection H1 as <-.
        destruct (decide (h2 = dst)) as [-> | Hd2]; [reflexivity |].
        now destruct (Hs2 (Hex h2 src p Hp H2 Hsrc)).
      + destruct (decide (h2 = dst)) as [-> | Hd2].
        * injection H2 as <-. now destruct (Hs1 (Hex h1 src p Hp H1 Hsrc)).
        * exact (Hex h1 h2 p' Hp' H1 H2).
    - unfold smartptr_deref. simpl. rewrite Hd. unfold owns in Hsrc.
      rewrite Hsrc. simpl. exact (Hheap Hex). }
  split.
  - unfold on_handles.
    rewrite (smartptr_move_ctor_eq dst src (owners s) (mkPtr p) Hsrc).
    unfold state_of. simpl. apply Hmoved; [| reflexivity].
    intros h. destruct (decide (h = src)) as [-> | Hhs].
    + rewrite lookup_alter_eq, lookup_insert_ne by exact Hne.
      unfold owns in Hsrc. now rewrite Hsrc.
    + rewrite lookup_alter_ne by congruence.
      destruct (decide (h = dst)) as [-> | Hhd].
      * apply lookup_insert_eq.
      * now rewrite lookup_insert_ne by congruence.
  - intros [t Ht]. unfold on_handles.
    rewrite (smartptr_move_assign_eq dst src (owners s) t (mkPtr p) Hne Ht Hsrc).
    unfold state_of. simpl. apply Hmoved.
    + intros h. destruct (decide (h = src)) as [-> | Hhs].
      * rewrite lookup_alter_eq, lookup_alter_ne by exact Hne.
        unfold owns in Hsrc. now rewrite Hsrc.
      * rewrite lookup_alter_ne by congruence.
        destruct (decide (h = dst)) as [-> | Hhd].
        -- rewrite lookup_alter_eq, Ht. reflexivity.
        -- now rewrite lookup_alter_ne by congruence.
    + intros Hex.
      destruct (Z.eqb_spec (ptr t) 0) as [Hz | Hnz]; [reflexivity |].
      simpl. unfold apply_event. simpl. apply lookup_delete_ne.
      intros Heq. apply Hne. destruct t as [q]. simpl in *. subst q.
      exact (Hex dst src p Hp Ht Hsrc).
Qed.

(** Two handles, 1 holding 16 and 2 holding 32; 1 is moved into a new
    handle 3 and, in another run, assigned to 2. *)
Lemma move_transfers_ownership_witness :
  let s := {| gc := GarbageCollector_ctor;
              owners := <[1%nat := mkPtr 16]> {[2%nat := mkPtr 32]};
              heap := <[16 := 7%nat]> {[32 := 9%nat]} |} in
  smartptr_deref 3 (state_of (on_handles (smartptr_move_ctor 3 1) s)) = Some 7%nat
  /\ smartptr_deref 2 (state_of (on_handles (smartptr_move_assign 2 1) s))
     = Some 7%nat.
Proof.
  intros s.
  assert (Hp : 16 <> nullptr) by discriminate.
  assert (Hsrc : owns (owners s) 1 16) by reflexivity.
  assert (Hex : exclusive (owners s)).
  { intros h1 h2 p' _ H1 H2. unfold owns in H1, H2. simpl in H1, H2.
    apply lookup_insert_Some in H1 as [[<- H1] | [N1 H1]];
      apply lookup_insert_Some in H2 as [[<- H2] | [N2 H2]];
      try reflexivity.
    - apply lookup_singleton_Some in H2 as [<- H2]. congruence.
    - apply lookup_singleton_Some in H1 as [<- H1]. congruence.
    - apply lookup_singleton_Some in H1 as [<- _].
      apply lookup_singleton_Some in H2 as [<- _]. reflexivity. }
  split.
  - assert (Hne : 3%nat <> 1%nat) by discriminate.
    destruct (move_transfers_ownership nat s 1 3 16 Hp Hsrc Hne)
      as [(_ & _ & _ & _ & Hrest) _].
    destruct (Hrest Hex) as (_ & _ & Hderef).
    rewrite Hderef. reflexivity.
  - assert (Hne : 2%nat <> 1%nat) by discriminate.
    assert (Hdst : is_Some (owners s !! 2%nat)) by (eexists; reflexivity).
    destruct (move_transfers_ownership nat s 1 2 16 Hp Hsrc Hne)
      as [_ Hassign].
    destruct (Hassign Hdst) as (_ & _ & _ & _ & Hrest).
    destruct (Hrest Hex) as (_ & _ & Hderef).
    rewrite Hderef. reflexivity.
Defined.

(** ** C6: what the operations of a handle release *)

(** C6, the program at a concrete input: handle 0 holds 16, handle 1 holds
    32; the move assignment of 1 to 0 deletes 16. *)
Theorem move_assign_deletes_held :
  let hs : handles := <[0%nat := mkPtr 16]> {[1%nat := mkPtr 32]} in
  trace_of (smartptr_move_assign 0 1 hs) = [Delete 16]
  /\ release_count 16 (trace_of (do_handle_op (HMoveAssign 0 1) hs)) = 1%nat.
Proof.
  intros hs.
  assert (H : trace_of (smartptr_move_assign 0 1 hs) = [Delete 16]).
  { apply (move_assign_releases 0 1 hs 16 (mkPtr 32)); try reflexivity;
      discriminate. }
  split; [exact H |]. simpl. rewrite H. reflexivity.
Qed.

(** ** The allocation hook *)

Section InterceptorFacts.

Variable sizeof_GarbageCollector : Z.
Variable thread_allocs : list Z.
Variable push_back_allocs : list MemoryBlock -> list Z.

Local Abbreviation new_ :=
  (operator_new sizeof_GarbageCollector thread_allocs push_back_allocs).

Lemma malloc_keeps size w :
  isRecursive (state_of (malloc size w)) = isRecursive w
  /\ instance (state_of (malloc size w)) = instance w
  /\ trace_of (malloc size w) = [Malloc size (result_of (malloc size w))].
Proof. unfold malloc. destruct (arena w); repeat split. Qed.

(** One level of [operator new]. *)
Lemma operator_new_S depth size now w :
  new_ (S depth) size now w =
  if isRecursive w then
    let '(p, w1, e1) := malloc size w in Some (Returns p, w1, e1)
  else
    let w0 := set_isRecursive true w in
    let '(p, w1, e1) := malloc size w0 in
    if p =? nullptr then Some (Throws_bad_alloc, w1, e1)
    else
      match GetInstance sizeof_GarbageCollector thread_allocs
              (fun sz => new_ depth sz now) w1 with
      | None => None
      | Some (Returns _, w2, e2) =>
          match gc_createObject push_back_allocs (fun sz => new_ depth sz now)
                  p size now w2 with
          | None => None
          | Some (Returns _, w3, e3) =>
              Some (Returns p, set_isRecursive false w3, e1 ++ e2 ++ e3)
          | Some (Throws_bad_alloc, w3, e3) =>
              Some (Throws_bad_alloc, w3, e1 ++ e2 ++ e3)
          | Some (Undefined, w3, e3) => Some (Undefined, w3, e1 ++ e2 ++ e3)
          end
      | Some (Throws_bad_alloc, w2, e2) => Some (Throws_bad_alloc, w2, e1 ++ e2)
      | Some (Undefined, w2, e2) => Some (Undefined, w2, e1 ++ e2)
      end.
Proof. reflexivity. Qed.

(** With the flag set, [operator new] is [malloc]. *)
Lemma operator_new_nested depth size now w :
  isRecursive w = true ->
  new_ (S depth) size now w =
  Some (Returns (result_of (malloc size w)), state_of (malloc size w),
        trace_of (malloc size w)).
Proof.
  intros H. rewrite operator_new_S, H.
  now destruct (malloc size w) as [[p w1] e1].
Qed.

(** With the flag set, the allocations of the registration path end at any
    depth of at least one, keep the flag and leave [instance] alone. *)
Lemma nested_allocs_guarded now sizes : forall depth w,
  isRecursive w = true ->
  exists o w' e,
    nested_allocs (fun sz => new_ (S depth) sz now) sizes w = Some (o, w', e)
    /\ nested_allocs (fun sz => new_ 1 sz now) sizes w = Some (o, w', e)
    /\ isRecursive w' = true
    /\ instance w' = instance w.
Proof.
  induction sizes as [| sz rest IH]; intros depth w Hw.
  - exists (Returns tt), w, []. repeat split. exact Hw.
  - cbn [nested_allocs]. rewrite !operator_new_nested by exact Hw.
    destruct (malloc_keeps sz w) as (Hflag & Hinst & _).
    destruct (result_of (malloc sz w) =? 0).
    + do 3 eexists. repeat split; [congruence | exact Hinst].
    + destruct (IH depth (state_of (malloc sz w))) as (o & w' & e & H1 & H2 & Hf & Hi);
        [congruence |].
      rewrite H1, H2. do 3 eexists. repeat split; [exact Hf | congruence].
Qed.

Lemma GetInstance_guarded now depth w :
  isRecursive w = true ->
  exists o w' e,
    GetInstance sizeof_GarbageCollector thread_allocs
      (fun sz => new_ (S depth) sz now) w = Some (o, w', e)
    /\ GetInstance sizeof_GarbageCollector thread_allocs
         (fun sz => new_ 1 sz now) w = Some (o, w', e)
    /\ isRecursive w' = true.
Proof.
  intros Hw. unfold GetInstance. destruct (instance w).
  - do 3 eexists. repeat split. exact Hw.
  - destruct (nested_allocs_guarded now (sizeof_GarbageCollector :: thread_allocs)
                depth w Hw) as (o & w' & e & H1 & H2 & Hf & _).
    rewrite H1, H2. destruct o; do 3 eexists; repeat split; exact Hf.
Qed.

Lemma gc_createObject_guarded p size now depth w :
  isRecursive w = true ->
  exists o w' e,
    gc_createObject push_back_allocs (fun sz => new_ (S depth) sz now)
      p size now w = Some (o, w', e)
    /\ gc_createObject push_back_allocs (fun sz => new_ 1 sz now)
         p size now w = Some (o, w', e).
Proof.
  intros Hw. unfold gc_createObject. destruct (instance w) as [g |].
  - destruct (nested_allocs_guarded now
                (if p =? 0 then [] else push_back_allocs (memoryBlocks g))
                depth w Hw) as (o & w' & e & H1 & H2 & _ & _).
    rewrite H1, H2. destruct o; try (do 3 eexists; split; reflexivity).
    destruct (instance w') as [g1 |]; [| do 3 eexists; split; reflexivity].
    destruct (createObject p size now g1) as [[u g2] e2].
    do 3 eexists; split; reflexivity.
  - do 3 eexists; split; reflexivity.
Qed.

(** Two levels of [operator new] are all the program ever needs. *)
Lemma operator_new_depth_two size now w : forall depth,
  exists r,
    new_ (S (S depth)) size now w = Some r /\ new_ 2 size now w = Some r.
Proof.
  intros depth. destruct (isRecursive w) eqn:Hw.
  - rewrite !operator_new_nested by exact Hw. eexists. split; reflexivity.
  - rewrite (operator_new_S (S depth)), (operator_new_S 1), Hw.
    cbv zeta.
    destruct (malloc size (set_isRecursive true w)) as [[p w1] e1] eqn:Em.
    destruct (p =? 0); [eexists; split; reflexivity |].
    assert (Hw1 : isRecursive w1 = true).
    { destruct (malloc_keeps size (set_isRecursive true w)) as [Hf _].
      rewrite Em in Hf. exact Hf. }
    destruct (GetInstance_guarded now depth w1 Hw1) as (o & w2 & e2 & H1 & H2 & Hw2).
    rewrite H1, H2.
    destruct o; try (eexists; split; reflexivity).
    destruct (gc_createObject_guarded p size now depth w2 Hw2)
      as (o3 & w3 & e3 & H3 & H4).
    rewrite H3, H4. destruct o3; eexists; split; reflexivity.
Qed.

End InterceptorFacts.

(** Outside the registration path a refusal of [malloc] is thrown as
    [bad_alloc]; the flag stays set. *)
Lemma operator_new_throws (sizeof_GarbageCollector : Z) (thread_allocs : list Z)
    (push_back_allocs : list MemoryBlock -> list Z) (depth : nat)
    (size now : Z) (w : World) :
  isRecursive w = false ->
  result_of (malloc size w) = nullptr ->
  exists w' e,
    operator_new sizeof_GarbageCollector thread_allocs push_back_allocs
      (S depth) size now w = Some (Throws_bad_alloc, w', e)
    /\ isRecursive w' = true.
Proof.
  intros Hw Hnull. rewrite operator_new_S, Hw. cbv zeta.
  assert (Hm : result_of (malloc size (set_isRecursive true w)) = nullptr).
  { revert Hnull. unfold malloc, result_of. simpl. now destruct (arena w). }
  pose proof (malloc_keeps size (set_isRecursive true w)) as (Hf & _).
  destruct (malloc size (set_isRecursive true w)) as [[p w1] e1].
  unfold result_of, state_of in *. simpl in *. subst p. simpl.
  do 2 eexists. split; [reflexivity | exact Hf].
Qed.

(** A first allocation of 8 bytes in a fresh thread of a fresh process:
    the singleton takes 64 bytes, its thread 24, the first [push_back] 32.
    One level of [operator new] does not suffice, two do; three nested
    allocations are made and only the block of the caller is recorded. *)
Example first_allocation :
  let new_ := operator_new 64 [24] (fun bs => match bs with [] => [32] | _ => [] end) in
  let w := {| instance := None; isRecursive := false; arena := [16; 112; 208; 304] |} in
  new_ 1%nat 8 0 w = None
  /\ new_ 2%nat 8 0 w =
     Some (Returns 16,
           {| instance := Some {| period := 900;
                                  memoryBlocks := [mkBlock 16 8 0 false];
                                  running := true |};
              isRecursive := false; arena := [] |},
           [Malloc 8 16; Malloc 64 112; Malloc 24 208; Malloc 32 304]).
Proof. split; reflexivity. Qed.

(** ** C5: a refusal of the platform allocator *)

(** C5, the program at a concrete input: [operator new] is called for 8
    bytes with the flag of the thread set and [malloc] refusing.  The call
    returns the null pointer as its result; no [bad_alloc] is thrown.  Seen
    from the call that set the flag (a first allocation, where [malloc]
    serves the caller and then refuses the singleton), the outcome is not
    [bad_alloc] either. *)
Theorem nested_new_returns_null :
  let new_ := operator_new 64 [24] (fun _ => []) in
  let w := {| instance := Some GarbageCollector_ctor; isRecursive := true;
              arena := [] |} in
  new_ 1%nat 8 0 w = Some (Returns nullptr, w, [Malloc 8 nullptr])
  /\ new_ 1%nat 8 0 w <> Some (Throws_bad_alloc, w, [Malloc 8 nullptr])
  /\ new_ 2%nat 8 0 {| instance := None; isRecursive := false; arena := [16] |}
     = Some (Undefined,
             {| instance := None; isRecursive := true; arena := [] |},
             [Malloc 8 16; Malloc 64 nullptr]).
Proof. repeat split. discriminate. Qed.

(** ** C8: allocations inside the registration path *)

(** C8. When [operator new] is called on a thread whose flag is set (the
    thread is inside the registration of another allocation), the call is
    [malloc] and nothing else, at every depth: its result is the pointer
    [malloc] gave, the registry is not touched and the flag stays set.
    Hence every call of [operator new], in every state, ends within two
    levels of [operator new], with the same result at any greater bound. *)
Theorem nested_new_bypasses_registration (sizeof_GarbageCollector : Z)
    (thread_allocs : list Z) (push_back_allocs : list MemoryBlock -> list Z)
    (size now : Z) (w : World) :
  (isRecursive w = true ->
   forall depth,
     operator_new sizeof_GarbageCollector thread_allocs push_back_allocs
       (S depth) size now w
     = Some (Returns (result_of (malloc size w)), state_of (malloc size w),
             [Malloc size (result_of (malloc size w))])
     /\ instance (state_of (malloc size w)) = instance w
     /\ isRecursive (state_of (malloc size w)) = true)
  /\ (exists r, forall depth, (2 <= depth)%nat ->
        operator_new sizeof_GarbageCollector thread_allocs push_back_allocs
          depth size now w = Some r).
Proof.
  split.
  - intros Hw depth. rewrite operator_new_nested by exact Hw.
    destruct (malloc_keeps size w) as (Hf & Hi & Ht).
    rewrite Ht. repeat split; congruence.
  - destruct (operator_new_depth_two sizeof_GarbageCollector thread_allocs
                push_back_allocs size now w 0) as (r & _ & H2).
    exists r. intros depth Hd.
    destruct depth as [| [| depth]]; [lia | lia |].
    destruct (operator_new_depth_two sizeof_GarbageCollector thread_allocs
                push_back_allocs size now w depth) as (r' & H1 & H2').
    congruence.
Qed.

Section InterceptorMore.

Variable sizeof_GarbageCollector : Z.
Variable thread_allocs : list Z.
Variable push_back_allocs : list MemoryBlock -> list Z.

Local Abbreviation new_ :=
  (operator_new sizeof_GarbageCollector thread_allocs push_back_allocs).

Local Abbreviation only_mallocs :=
  (Forall (fun ev : event => released ev = None)).

Lemma malloc_any_flag size b w :
  result_of (malloc size (set_isRecursive b w)) = result_of (malloc size w)
  /\ instance (state_of (malloc size (set_isRecursive b w))) = instance w
  /\ isRecursive (state_of (malloc size (set_isRecursive b w))) = b
  /\ only_mallocs (trace_of (malloc size (set_isRecursive b w))).
Proof.
  unfold malloc, result_of, state_of, trace_of. simpl.
  destruct (arena w); simpl; repeat split; repeat constructor.
Qed.

(** With the flag set, the allocations of the registration path end, do
    not throw, only call [malloc], keep the flag and leave [instance]. *)
Lemma nested_allocs_shape now sizes : forall depth w,
  isRecursive w = true ->
  exists o w' e,
    nested_allocs (fun sz => new_ (S depth) sz now) sizes w = Some (o, w', e)
    /\ o <> Throws_bad_alloc
    /\ isRecursive w' = true
    /\ instance w' = instance w
    /\ only_mallocs e.
Proof.
  induction sizes as [| sz rest IH]; intros depth w Hw.
  - exists (Returns tt), w, []. repeat split; [discriminate | exact Hw | constructor].
  - cbn [nested_allocs]. rewrite operator_new_nested by exact Hw.
    destruct (malloc_keeps sz w) as (Hflag & Hinst & Htr).
    assert (Hm : only_mallocs (trace_of (malloc sz w)))
      by (rewrite Htr; repeat constructor).
    destruct (result_of (malloc sz w) =? 0).
    + do 3 eexists. repeat split;
        [discriminate | congruence | exact Hinst | exact Hm].
    + destruct (IH depth (state_of (malloc sz w)))
        as (o & w' & e & H1 & Ho & Hf & Hi & He); [congruence |].
      rewrite H1. do 3 eexists.
      repeat split; [exact Ho | exact Hf | congruence |].
      apply List.Forall_app. split; assumption.
Qed.

Lemma GetInstance_shape now depth w :
  isRecursive w = true ->
  exists o w' e,
    GetInstance sizeof_GarbageCollector thread_allocs
      (fun sz => new_ (S depth) sz now) w = Some (o, w', e)
    /\ o <> Throws_bad_alloc
    /\ isRecursive w' = true
    /\ only_mallocs e
    /\ (o = Returns tt ->
        instance w' = Some (match instance w with
                            | Some g => g
                            | None => GarbageCollector_ctor
                            end)).
Proof.
  intros Hw. unfold GetInstance. destruct (instance w) as [g |] eqn:Ei.
  - do 3 eexists. repeat split; [discriminate | exact Hw | constructor | ].
    intros _. exact Ei.
  - destruct (nested_allocs_shape now (sizeof_GarbageCollector :: thread_allocs)
                depth w Hw) as (o & w' & e & H1 & Ho & Hf & _ & He).
    rewrite H1. destruct o; [| contradiction |];
      do 3 eexists; repeat split;
        try discriminate; try exact Hf; try exact He.
Qed.

Lemma gc_createObject_shape p size now depth w g :
  isRecursive w = true ->
  instance w = Some g ->
  exists o w' e,
    gc_createObject push_back_allocs (fun sz => new_ (S depth) sz now)
      p size now w = Some (o, w', e)
    /\ o <> Throws_bad_alloc
    /\ isRecursive w' = true
    /\ only_mallocs e
    /\ (o = Returns tt ->
        instance w' = Some (state_of (createObject p size now g))).
Proof.
  intros Hw Hi. unfold gc_createObject. rewrite Hi.
  destruct (nested_allocs_shape now
              (if p =? 0 then [] else push_back_allocs (memoryBlocks g))
              depth w Hw) as (o & w' & e & H1 & Ho & Hf & Hi' & He).
  rewrite H1. rewrite Hi in Hi'. destruct o; [| contradiction |].
  - rewrite Hi'. rewrite createObject_eq.
    do 3 eexists. repeat split; try discriminate; try exact Hf.
    now rewrite app_nil_r.
  - do 3 eexists. repeat split; try discriminate; try exact Hf; exact He.
Qed.

(** What a call of [operator new] outside the registration path comes to,
    at a depth of two or more. *)
Lemma operator_new_top_shape depth size now w :
  isRecursive w = false ->
  let p := result_of (malloc size w) in
  let w1 := state_of (malloc size (set_isRecursive true w)) in
  (p = nullptr /\
   new_ (S (S depth)) size now w
   = Some (Throws_bad_alloc, w1, [Malloc size nullptr]))
  \/ (p <> nullptr /\
      exists o w' e,
        new_ (S (S depth)) size now w = Some (o, w', e)
        /\ o <> Throws_bad_alloc
        /\ only_mallocs e
        /\ (forall q, o = Returns q ->
              q = p
              /\ isRecursive w' = false
              /\ instance w'
                 = Some (state_of
                           (createObject p size now
                              (match instance w with
                               | Some g => g
                               | None => GarbageCollector_ctor
                               end))))).
Proof.
  intros Hw p w1. subst p w1.
  destruct (malloc_any_flag size true w) as (Hres & Hinst & Hflag & Hm).
  pose proof (malloc_keeps size (set_isRecursive true w)) as (_ & _ & Htr).
  rewrite operator_new_S, Hw. cbv zeta.
  destruct (malloc size (set_isRecursive true w)) as [[p w1] e1].
  unfold result_of at 1 in Hres.
  unfold result_of, state_of, trace_of in Hinst, Hflag, Hm, Htr.
  cbn [fst snd] in Hres, Hinst, Hflag, Hm, Htr.
  rewrite <- Hres. unfold state_of. cbn [fst snd].
  destruct (Z.eqb_spec p 0) as [Hz | Hnz].
  - left. split; [exact Hz |]. now rewrite Htr, Hz.
  - right. split; [exact Hnz |].
    destruct (GetInstance_shape now depth w1 Hflag)
      as (o2 & w2 & e2 & H2 & Ho2 & Hf2 & He2 & Hi2).
    rewrite H2. destruct o2 as [[] | |]; [| contradiction |].
    + specialize (Hi2 eq_refl). rewrite Hinst in Hi2.
      destruct (gc_createObject_shape p size now depth w2 _ Hf2 Hi2)
        as (o3 & w3 & e3 & H3 & Ho3 & Hf3 & He3 & Hi3).
      rewrite H3. destruct o3 as [[] | |]; [| contradiction |].
      * do 3 eexists. repeat split; try discriminate.
        -- apply List.Forall_app. split; [exact Hm |].
           apply List.Forall_app. split; assumption.
        -- now injection H.
        -- exact (Hi3 eq_refl).
      * do 3 eexists. repeat split; try discriminate.
        apply List.Forall_app. split; [exact Hm |].
        apply List.Forall_app. split; assumption.
    + do 3 eexists. repeat split; try discriminate.
      apply List.Forall_app. split; assumption.
Qed.

End InterceptorMore.

(** ** The sweep *)

Lemma int64_wrap_in_range (z : Z) : in_int64 z -> int64_wrap z = z.
Proof.
  unfold in_int64, int64_wrap. intros H.
  rewrite Z.mod_small by lia. lia.
Qed.

Lemma frees_app (e1 e2 : list event) : frees (e1 ++ e2) = frees e1 ++ frees e2.
Proof. unfold frees. apply List.flat_map_app. Qed.

Lemma frees_only_mallocs (e : list event) :
  Forall (fun ev => released ev = None) e -> frees e = [].
Proof.
  induction 1 as [| ev l Hev _ IH]; [reflexivity |].
  destruct ev; simpl in *; try discriminate. exact IH.
Qed.

Lemma release_count_only_mallocs (a : Z) (e : list event) :
  Forall (fun ev => released ev = None) e -> release_count a e = 0%nat.
Proof.
  unfold release_count. induction 1 as [| ev l Hev _ IH]; [reflexivity |].
  simpl. unfold releases at 1. now rewrite Hev.
Qed.

Lemma only_mallocs_no_delete (a : Z) (e : list event) :
  Forall (fun ev => released ev = None) e -> ~ In (Delete a) e.
Proof.
  intros H Hin. apply (proj1 (List.Forall_forall _ _) H) in Hin. discriminate.
Qed.

Lemma registry_grew_refl (w : World) (g : GarbageCollector) :
  instance w = Some g -> registry_grew w w.
Proof.
  intros H. exists g, g. repeat split; try assumption.
  exists []. now rewrite app_nil_r.
Qed.

Lemma registry_grew_trans (w1 w2 w3 : World) :
  registry_grew w1 w2 -> registry_grew w2 w3 -> registry_grew w1 w3.
Proof.
  intros (g1 & g2 & H1 & H2 & Hp & Hr & x & Hx)
         (g2' & g3 & H2' & H3 & Hp' & Hr' & y & Hy).
  rewrite H2 in H2'. injection H2' as <-.
  exists g1, g3. repeat split; try assumption; try congruence.
  exists (x ++ y). now rewrite Hy, Hx, app_assoc.
Qed.

Section SweepFacts.

Variable tps : positive.
Variable sizeof_GarbageCollector : Z.
Variable thread_allocs : list Z.
Variable push_back_allocs : list MemoryBlock -> list Z.

Local Abbreviation new_ :=
  (operator_new sizeof_GarbageCollector thread_allocs push_back_allocs).
Local Abbreviation allocate_ :=
  (allocate_storage sizeof_GarbageCollector thread_allocs push_back_allocs).
Local Abbreviation loop_ :=
  (collect_loop tps sizeof_GarbageCollector thread_allocs push_back_allocs).
Local Abbreviation sweep_ :=
  (collectGarbage tps sizeof_GarbageCollector thread_allocs push_back_allocs).
Local Abbreviation only_mallocs :=
  (Forall (fun ev : event => released ev = None)).

(** What a call of [operator new] comes to, at a depth of two or more, in
    a state where the registry exists. *)
Lemma new_shape depth size now w g :
  instance w = Some g ->
  exists o w' e,
    new_ (S (S depth)) size now w = Some (o, w', e)
    /\ only_mallocs e
    /\ (o <> Undefined -> registry_grew w w')
    /\ (forall p, o = Returns p -> isRecursive w' = isRecursive w)
    /\ (o = Throws_bad_alloc -> isRecursive w' = true).
Proof.
  intros Hg. destruct (isRecursive w) eqn:Hw.
  - rewrite operator_new_nested by exact Hw.
    destruct (malloc_keeps size w) as (Hf & Hi & Ht).
    do 3 eexists. split; [reflexivity |]. rewrite Ht.
    split; [repeat constructor | split; [| split]].
    + intros _. exists g, g. rewrite Hi. repeat split; try assumption.
      exists []. now rewrite app_nil_r.
    + intros p _. congruence.
    + discriminate.
  - destruct (malloc_any_flag size true w) as (_ & Hinst & Hflag & _).
    destruct (operator_new_top_shape sizeof_GarbageCollector thread_allocs
                push_back_allocs depth size now w Hw)
      as [[Hz Hr] | (Hnz & o & w' & e & Hr & Ho & He & Hshape)].
    + do 3 eexists. split; [exact Hr |].
      split; [repeat constructor | split; [| split]].
      * intros _. exists g, g. rewrite Hinst. repeat split; try assumption.
        exists []. now rewrite app_nil_r.
      * discriminate.
      * intros _. exact Hflag.
    + exists o, w', e. split; [exact Hr |]. split; [exact He |].
      split; [| split].
      * intros Hdef. destruct o as [q | |]; [| contradiction | contradiction].
        destruct (Hshape q eq_refl) as (_ & _ & Hi). rewrite Hg in Hi.
        rewrite createObject_eq in Hi. unfold state_of in Hi. cbn [fst snd] in Hi.
        apply Z.eqb_neq in Hnz. rewrite Hnz in Hi.
        exists g. eexists. split; [exact Hg |]. split; [exact Hi |].
        split; [reflexivity |]. split; [reflexivity |].
        eexists. reflexivity.
      * intros p ->. now destruct (Hshape p eq_refl) as (_ & Hf & _).
      * intros ->. contradiction.
Qed.

Lemma allocate_shape depth registered_at sizes : forall w g,
  instance w = Some g ->
  exists o w' e,
    allocate_ (S (S depth)) registered_at sizes w = Some (o, w', e)
    /\ only_mallocs e
    /\ (o <> Undefined -> registry_grew w w')
    /\ (forall m, o = Returns m -> isRecursive w' = isRecursive w)
    /\ (o = Throws_bad_alloc -> isRecursive w' = true)
    /\ (forall m, o = Returns m -> sizes <> [] ->
                  registration_moves push_back_allocs w = true -> m = true).
Proof.
  induction sizes as [| sz rest IH]; intros w g Hg.
  - exists (Returns false), w, []. split; [reflexivity |].
    split; [constructor |]. split; [intros _; now apply (registry_grew_refl w g) |].
    repeat split; try discriminate. intros m _ H. now destruct H.
  - cbn [allocate_storage].
    destruct (new_shape depth sz registered_at w g Hg)
      as (o & w1 & e1 & Hr & He & Hgrew & Hflag & Hthrow).
    rewrite Hr. destruct o as [p | |].
    + destruct (p =? 0).
      * do 3 eexists. split; [reflexivity |]. split; [exact He |].
        repeat split; try discriminate. intros H. now destruct H.
      * destruct (Hgrew ltac:(discriminate)) as (g0 & g1 & H0 & H1 & Hrest).
        destruct (IH w1 g1 H1) as (o2 & w2 & e2 & Hr2 & He2 & Hgrew2 & Hflag2 & Hthrow2 & _).
        rewrite Hr2.
        assert (Hall : only_mallocs (e1 ++ e2))
          by (apply List.Forall_app; split; assumption).
        assert (Hg1 : registry_grew w w1) by (apply Hgrew; discriminate).
        destruct o2 as [m | |]; do 3 eexists; (split; [reflexivity |]);
          (split; [exact Hall |]).
        -- split; [intros _; eapply registry_grew_trans;
                    [exact Hg1 | apply Hgrew2; discriminate] |].
           split; [intros m' _; rewrite (Hflag2 m eq_refl); now apply (Hflag p) |].
           split; [discriminate |].
           intros m' Hm _ Hmoves. injection Hm as <-. now rewrite Hmoves.
        -- split; [intros _; eapply registry_grew_trans;
                    [exact Hg1 | apply Hgrew2; discriminate] |].
           repeat split; try discriminate. intros _. now apply Hthrow2.
        -- repeat split; try discriminate. intros H. now destruct H.
    + do 3 eexists. split; [reflexivity |]. split; [exact He |].
      split; [intros _; apply Hgrew; discriminate |].
      repeat split; try discriminate. intros _. now apply Hthrow.
    + do 3 eexists. split; [reflexivity |]. split; [exact He |].
      repeat split; try discriminate. intros H. now destruct H.
Qed.

Lemma frees_cons_free (a : Z) (e : list event) :
  frees (Free a :: e) = a :: frees e.
Proof. reflexivity. Qed.

Lemma release_count_cons_free (a x : Z) (e : list event) :
  release_count a (Free x :: e)
  = ((if (x =? a)%Z then 1 else 0) + release_count a e)%nat.
Proof.
  unfold release_count. simpl. unfold releases at 1. simpl.
  now destruct (x =? a).
Qed.

(** What the loop of a sweep comes to, at a depth of two or more. *)
Lemma loop_shape depth now clock blocks : forall nb c w g,
  instance w = Some g ->
  exists o w' e,
    loop_ (S (S depth)) now clock blocks nb c w = Some (o, w', e)
    /\ (o <> Undefined -> registry_grew w w')
    /\ (exists rest,
          map address (List.filter (doomed tps now) blocks) = frees e ++ rest)
    /\ (forall a, release_count a e
                  = length (List.filter (fun x => x =? a) (frees e)))
    /\ (forall a, ~ In (Delete a) e)
    /\ (o = Throws_bad_alloc -> isRecursive w' = true)
    /\ (forall r, o = Returns r ->
          fst r = nb ++ List.filter (kept tps now) blocks
          /\ frees e = map address (List.filter (doomed tps now) blocks)
          /\ isRecursive w' = isRecursive w).
Proof.
  induction blocks as [| b rest IH]; intros nb c w g Hg.
  - exists (Returns (nb, c)), w, []. split; [reflexivity |].
    split; [intros _; now apply (registry_grew_refl w g) |].
    split; [exists []; reflexivity |]. split; [reflexivity |].
    split; [intros a []|]. split; [discriminate |].
    intros r Hr. injection Hr as <-. simpl. now rewrite app_nil_r.
  - cbn [collect_loop List.filter].
    assert (Hk : kept tps now b = negb (isFreed b) && negb (due tps now b))
      by reflexivity.
    assert (Hd : doomed tps now b = negb (isFreed b) && due tps now b)
      by reflexivity.
    assert (Hdue : due tps now b
                   = (5 <=? duration_cast_seconds tps
                              (ticks_between now (allocationTime b))))
      by reflexivity.
    rewrite Hk, Hd. cbv zeta. rewrite <- Hdue.
    destruct (isFreed b); cbn [negb andb]; [now apply (IH nb c w g) |].
    destruct (due tps now b); cbn [negb andb].
    + destruct (IH nb true w g Hg)
        as (o & w1 & e1 & Hr & Hgrew & [rest' Hpre] & Hcount & Hnd & Hthrow & Hret).
      rewrite Hr. exists o, w1, (Free (address b) :: e1).
      split; [reflexivity |]. split; [exact Hgrew |].
      split; [exists rest'; cbn [map]; rewrite frees_cons_free, Hpre; reflexivity |].
      split; [| split; [| split; [exact Hthrow |]]].
      * intros a. rewrite release_count_cons_free, frees_cons_free, Hcount.
        cbn [List.filter]. now destruct (address b =? a).
      * intros a [Habs | Hin]; [discriminate | now apply (Hnd a)].
      * intros r Hr'. destruct (Hret r Hr') as (H1 & H2 & H3).
        repeat split; try assumption.
        cbn [map]. now rewrite frees_cons_free, H2.
    + destruct (allocate_shape depth (clock (length nb)) (push_back_allocs nb) w g Hg)
        as (o1 & w1 & e1 & Hr1 & He1 & Hgrew1 & Hflag1 & Hthrow1 & _).
      rewrite Hr1.
      pose proof (frees_only_mallocs e1 He1) as Hf1.
      assert (Hc1 : forall a, release_count a e1 = 0%nat)
        by (intros a; now apply release_count_only_mallocs).
      assert (Hn1 : forall a, ~ In (Delete a) e1)
        by (intros a; now apply only_mallocs_no_delete).
      destruct o1 as [moved | |].
      * destruct moved.
        -- do 3 eexists. split; [reflexivity |].
           split; [intros H; now destruct H |].
           split; [eexists; rewrite Hf1; reflexivity |].
           split; [intros a; now rewrite Hc1, Hf1 |].
           split; [exact Hn1 |]. split; discriminate.
        -- assert (Hg1 : registry_grew w w1) by (apply Hgrew1; discriminate).
           destruct Hg1 as (g0 & g1 & H0 & H1 & Hrest).
           destruct (IH (nb ++ [b]) c w1 g1 H1)
             as (o & w2 & e2 & Hr & Hgrew & [rest' Hpre] & Hcount & Hnd & Hthrow & Hret).
           rewrite Hr. exists o, w2, (e1 ++ e2). split; [reflexivity |].
           split; [intros Hdef; eapply registry_grew_trans;
                     [apply Hgrew1; discriminate | now apply Hgrew] |].
           split; [exists rest'; now rewrite frees_app, Hf1 |].
           split; [intros a; rewrite release_count_app, Hc1, frees_app, Hf1; apply Hcount |].
           split; [intros a Hin; apply List.in_app_or in Hin as [Hin | Hin];
                   [now apply (Hn1 a) | now apply (Hnd a)] |].
           split; [exact Hthrow |].
           intros r Hr'. destruct (Hret r Hr') as (H1' & H2' & H3').
           rewrite frees_app, Hf1. rewrite <- app_assoc in H1'.
           repeat split; try assumption.
           rewrite H3'. now apply (Hflag1 false).
      * do 3 eexists. split; [reflexivity |].
        split; [intros _; apply Hgrew1; discriminate |].
        split; [eexists; rewrite Hf1; reflexivity |].
        split; [intros a; now rewrite Hc1, Hf1 |].
        split; [exact Hn1 |].
        split; [intros _; now apply Hthrow1 | discriminate].
      * do 3 eexists. split; [reflexivity |].
        split; [intros H; now destruct H |].
        split; [eexists; rewrite Hf1; reflexivity |].
        split; [intros a; now rewrite Hc1, Hf1 |].
        split; [exact Hn1 |]. split; discriminate.
Qed.

(** What a sweep comes to, at a depth of two or more. *)
Lemma sweep_shape depth now clock w g :
  instance w = Some g ->
  exists o w' e,
    sweep_ (S (S depth)) now clock w = Some (o, w', e)
    /\ (exists rest,
          map address (List.filter (doomed tps now) (memoryBlocks g))
          = frees e ++ rest)
    /\ (forall a, release_count a e
                  = length (List.filter (fun x => x =? a) (frees e)))
    /\ (forall a, ~ In (Delete a) e)
    /\ (o = Throws_bad_alloc -> registry_grew w w' /\ isRecursive w' = true)
    /\ (o = Returns tt ->
        instance w'
        = Some (set_memoryBlocks (List.filter (kept tps now) (memoryBlocks g)) g)
        /\ frees e = map address (List.filter (doomed tps now) (memoryBlocks g))
        /\ isRecursive w' = isRecursive w).
Proof.
  intros Hg. unfold collectGarbage. rewrite Hg.
  destruct (loop_shape depth now clock (memoryBlocks g) [] false w g Hg)
    as (o & w1 & e1 & Hr & Hgrew & Hpre & Hcount & Hnd & Hthrow & Hret).
  rewrite Hr. destruct o as [r | |].
  - destruct (Hgrew ltac:(discriminate))
      as (g0 & g1 & H0 & H1 & Hp & Hrun & _).
    rewrite Hg in H0. injection H0 as <-.
    rewrite H1. do 3 eexists. split; [reflexivity |].
    split; [exact Hpre |]. split; [exact Hcount |]. split; [exact Hnd |].
    split; [discriminate |].
    intros _. destruct (Hret r eq_refl) as (Hfst & Hfrees & Hflag).
    cbn [instance isRecursive set_instance]. repeat split; try assumption.
    rewrite Hfst. cbn [app]. unfold set_memoryBlocks. now rewrite Hp, Hrun.
  - do 3 eexists. split; [reflexivity |].
    split; [exact Hpre |]. split; [exact Hcount |]. split; [exact Hnd |].
    split; [| discriminate].
    intros _. split; [apply Hgrew; discriminate | now apply Hthrow].
  - do 3 eexists. split; [reflexivity |].
    split; [exact Hpre |]. split; [exact Hcount |]. split; [exact Hnd |].
    split; discriminate.
Qed.

(** In the range of the 64-bit difference, the test of the sweep compares
    the age in ticks with the retention window. *)
Lemma due_in_range now b :
  in_int64 (now - allocationTime b) ->
  due tps now b = (retention_window tps <=? now - allocationTime b).
Proof.
  intros H. unfold due, ticks_between.
  rewrite int64_wrap_in_range by exact H. apply duration_cast_seconds_ge.
Qed.

End SweepFacts.

Lemma in_frees (a : Z) (e : list event) : In a (frees e) <-> In (Free a) e.
Proof.
  unfold frees. rewrite List.in_flat_map. split.
  - intros (ev & Hev & Ha). destruct ev; simpl in Ha; try contradiction.
    destruct Ha as [<- | []]. exact Hev.
  - intros H. exists (Free a). split; [exact H | now left].
Qed.

(** The destructor releases every record of a vector of live blocks. *)
Lemma release_all_balance a bs :
  Forall live_block bs ->
  release_count a
    (map free_of (List.filter (fun b => negb (address b =? nullptr)) bs))
  = records_for a bs.
Proof.
  induction 1 as [| b rest [_ Hb] _ IH]; [reflexivity |].
  simpl. apply Z.eqb_neq in Hb. rewrite Hb. simpl.
  unfold release_count, records_for in *. simpl. unfold releases at 1. simpl.
  destruct (address b =? a); simpl; lia.
Qed.

Lemma filter_live p bs :
  Forall live_block bs -> Forall live_block (List.filter p bs).
Proof.
  intros H. apply List.Forall_forall. intros b Hb.
  apply List.filter_In in Hb as [Hb _].
  now apply (proj1 (List.Forall_forall _ _) H).
Qed.

Section RunFacts.

Variable tps : positive.
Variable sizeof_GarbageCollector : Z.
Variable thread_allocs : list Z.
Variable push_back_allocs : list MemoryBlock -> list Z.

Local Abbreviation new_ :=
  (operator_new sizeof_GarbageCollector thread_allocs push_back_allocs).
Local Abbreviation sweep_ :=
  (collectGarbage tps sizeof_GarbageCollector thread_allocs push_back_allocs).
Local Abbreviation dtor_ :=
  (GarbageCollector_dtor tps sizeof_GarbageCollector thread_allocs
     push_back_allocs).
Local Abbreviation call_ :=
  (do_call tps sizeof_GarbageCollector thread_allocs push_back_allocs).
Local Abbreviation calls_ :=
  (do_calls tps sizeof_GarbageCollector thread_allocs push_back_allocs).

(** A sweep splits the records of an address into the released and the
    kept ones. *)
Lemma sweep_balance now a bs :
  Forall live_block bs ->
  (length (List.filter (fun x => (x =? a)%Z)
             (map address (List.filter (doomed tps now) bs)))
   + records_for a (List.filter (kept tps now) bs) = records_for a bs)%nat.
Proof.
  induction 1 as [| b rest [Hf _] _ IH]; [reflexivity |].
  cbn [List.filter].
  assert (Hk : kept tps now b = negb (isFreed b) && negb (due tps now b))
    by reflexivity.
  assert (Hd : doomed tps now b = negb (isFreed b) && due tps now b)
    by reflexivity.
  rewrite Hk, Hd, Hf. cbn [negb andb]. unfold records_for in *.
  destruct (due tps now b); cbn [negb map List.filter];
    destruct (address b =? a); cbn [length]; lia.
Qed.

(** A returning [new] outside the registration path appends the record of
    the pointer it returns. *)
Lemma new_call_shape depth size now w p w' e :
  isRecursive w = false ->
  new_ (S (S depth)) size now w = Some (Returns p, w', e) ->
  p <> nullptr
  /\ isRecursive w' = false
  /\ Forall (fun ev => released ev = None) e
  /\ exists g',
       instance w' = Some g'
       /\ memoryBlocks g' = stored w ++ [mkBlock p size now false]
       /\ period g' = match instance w with Some g => period g | None => 900 end
       /\ running g' = match instance w with Some g => running g | None => true end.
Proof.
  intros Hw Hret.
  destruct (operator_new_top_shape sizeof_GarbageCollector thread_allocs
              push_back_allocs depth size now w Hw)
    as [[Hz Hr] | (Hnz & o & w2 & e2 & Hr & _ & He & Hshape)].
  - rewrite Hr in Hret. discriminate.
  - rewrite Hr in Hret. injection Hret as -> -> ->.
    destruct (Hshape p eq_refl) as (Hp & Hf & Hi).
    rewrite Hp. repeat split; try assumption.
    eexists. split; [exact Hi |].
    rewrite createObject_eq. unfold state_of, stored. cbn [fst snd].
    apply Z.eqb_neq in Hnz. rewrite Hnz.
    destruct (instance w); repeat split.
Qed.

(** A returning call keeps the state settled and accounts for the records
    of every address. *)
Lemma do_call_settled depth c answers w ps w' e :
  settled w ->
  call_ (S (S depth)) c answers w = Some (Returns ps, w', e) ->
  settled w'
  /\ forall a,
       (release_count a e + records_for a (stored w')
        = records_for a (stored w) + count_occ Z.eq_dec ps a)%nat.
Proof.
  intros [Hflag Hreg] Hcall. destruct c as [sz now | now clock];
    cbn [do_call] in Hcall.
  - destruct (new_ (S (S depth)) sz now (with_answers answers w))
      as [[[[p | |] w1] e1] |] eqn:Hnew; try discriminate.
    injection Hcall as <- <- <-.
    destruct (new_call_shape depth sz now (with_answers answers w) p w1 e1
                Hflag Hnew) as (Hp & Hf1 & He & g' & Hi & Hb & Hper & Hrun).
    unfold stored in *. cbn [with_answers instance] in *. rewrite Hi.
    split.
    + split; [exact Hf1 |]. rewrite Hi. rewrite Hper, Hrun, Hb.
      destruct (instance w) as [g |].
      * destruct Hreg as (H1 & H2 & H3). repeat split; try assumption.
        apply List.Forall_app. split; [exact H3 |].
        constructor; [split; [reflexivity | exact Hp] | constructor].
      * repeat split. constructor; [split; [reflexivity | exact Hp] | constructor].
    + intros a. rewrite (release_count_only_mallocs a e1 He), Hb.
      rewrite records_for_app. unfold records_for at 2. cbn [List.filter address count_occ].
      destruct (Z.eq_dec p a) as [-> | Hne].
      * rewrite Z.eqb_refl. cbn [length]. lia.
      * apply Z.eqb_neq in Hne. rewrite Hne. cbn [length]. lia.
  - destruct (instance w) as [g |] eqn:Hg.
    + destruct (sweep_shape tps sizeof_GarbageCollector thread_allocs
                  push_back_allocs depth now clock (with_answers answers w) g Hg)
        as (o & w1 & e1 & Hr & _ & Hcount & _ & _ & Hret).
      rewrite Hr in Hcall. destruct o as [[] | |]; try discriminate.
      injection Hcall as <- <- <-.
      destruct (Hret eq_refl) as (Hi & Hfrees & Hf1).
      destruct Hreg as (H1 & H2 & H3).
      unfold stored. rewrite Hi, Hg. cbn [memoryBlocks set_memoryBlocks].
      split.
      * split; [now rewrite Hf1 |]. rewrite Hi.
        cbn [period running memoryBlocks set_memoryBlocks].
        repeat split; try assumption. now apply filter_live.
      * intros a. rewrite Hcount, Hfrees. cbn [count_occ].
        rewrite sweep_balance by exact H3. lia.
    + unfold collectGarbage in Hcall. cbn [with_answers instance] in Hcall.
      rewrite Hg in Hcall. discriminate.
Qed.

Lemma do_calls_settled depth cs : forall w ps w' e,
  settled w ->
  calls_ (S (S depth)) cs w = Some (Returns ps, w', e) ->
  settled w'
  /\ forall a,
       (release_count a e + records_for a (stored w')
        = records_for a (stored w) + count_occ Z.eq_dec ps a)%nat.
Proof.
  induction cs as [| [c answers] rest IH]; intros w ps w' e Hw Hrun.
  - cbn [do_calls] in Hrun. injection Hrun as <- <- <-.
    split; [exact Hw |]. intros a. unfold release_count. simpl. lia.
  - cbn [do_calls] in Hrun.
    destruct (call_ (S (S depth)) c answers w)
      as [[[[ps1 | |] w1] e1] |] eqn:Hc; try discriminate.
    destruct (calls_ (S (S depth)) rest w1)
      as [[[[ps2 | |] w2] e2] |] eqn:Hcs; try discriminate.
    injection Hrun as <- <- <-.
    destruct (do_call_settled depth c answers w ps1 w1 e1 Hw Hc) as [Hw1 Hb1].
    destruct (IH w1 ps2 w2 e2 Hw1 Hcs) as [Hw2 Hb2].
    split; [exact Hw2 |]. intros a.
    rewrite release_count_app, count_occ_app.
    specialize (Hb1 a). specialize (Hb2 a). lia.
Qed.

Lemma settled_fresh : settled fresh.
Proof. split; [reflexivity | exact I]. Qed.

Lemma reachable_settled w :
  reachable tps sizeof_GarbageCollector thread_allocs push_back_allocs w ->
  settled w.
Proof.
  intros (cs & ps & e & Hrun).
  exact (proj1 (do_calls_settled 0 cs fresh ps w e settled_fresh Hrun)).
Qed.

(** What a returning destructor has done to a registry of live records. *)
Lemma dtor_shape depth pending w g w' e :
  instance w = Some g ->
  Forall live_block (memoryBlocks g) ->
  dtor_ (S (S depth)) pending w = Some (Returns tt, w', e) ->
  (forall a, release_count a e = records_for a (memoryBlocks g))
  /\ instance w'
     = Some {| period := period g; memoryBlocks := []; running := false |}.
Proof.
  intros Hg Hlive Hd. unfold GarbageCollector_dtor in Hd. rewrite Hg in Hd.
  destruct pending as [[now clock] |].
  - unfold on_thread in Hd.
    set (w0 := set_isRecursive false
                 (set_instance (Some (set_running false g)) w)) in Hd.
    assert (Hg0 : instance w0 = Some (set_running false g)) by reflexivity.
    destruct (sweep_shape tps sizeof_GarbageCollector thread_allocs
                push_back_allocs depth now clock w0 _ Hg0)
      as (o & w1 & e1 & Hr & _ & Hcount & _ & _ & Hret).
    rewrite Hr in Hd. destruct o as [[] | |]; try discriminate.
    destruct (Hret eq_refl) as (Hi & Hfrees & _).
    cbn [instance set_isRecursive] in Hd. rewrite Hi in Hd.
    rewrite release_loop_eq in Hd. injection Hd as <- <-.
    cbn [instance set_instance memoryBlocks set_memoryBlocks set_running
           period running].
    split; [| reflexivity]. intros a.
    rewrite release_count_app, Hcount, Hfrees.
    rewrite release_all_balance by now apply filter_live.
    now apply sweep_balance.
  - cbn [instance set_instance] in Hd. rewrite release_loop_eq in Hd.
    injection Hd as <- <-.
    cbn [instance set_instance memoryBlocks set_memoryBlocks set_running
           period running app].
    split; [| reflexivity]. intros a. now apply release_all_balance.
Qed.

End RunFacts.

(** A sweep that returns does not free an address whose unflagged records
    are all younger than the window, and the object at that address is
    where it was. *)
Lemma sweep_spares_young {T : Type} (tps : positive)
    (sizeof_GarbageCollector : Z) (thread_allocs : list Z)
    (push_back_allocs : list MemoryBlock -> list Z) (hp : gmap Z T) (q : Z)
    (depth : nat) (now : Z) (clock : nat -> Z) (w w' : World)
    (e : list event) (g : GarbageCollector) :
  instance w = Some g ->
  (forall b, In b (memoryBlocks g) -> address b = q -> isFreed b = false ->
             in_int64 (now - allocationTime b)
             /\ now - allocationTime b < retention_window tps) ->
  collectGarbage tps sizeof_GarbageCollector thread_allocs push_back_allocs
    (S (S depth)) now clock w = Some (Returns tt, w', e) ->
  ~ In (Free q) e /\ apply_events hp e !! q = hp !! q.
Proof.
  intros Hg Hyoung Hsweep.
  destruct (sweep_shape tps sizeof_GarbageCollector thread_allocs
              push_back_allocs depth now clock w g Hg)
    as (o & w1 & e1 & Hr & _ & _ & Hnd & _ & Hret).
  rewrite Hr in Hsweep. injection Hsweep as -> -> ->.
  destruct (Hret eq_refl) as (_ & Hfrees & _).
  assert (Hnf : ~ In (Free q) e).
  { intros Hin. apply in_frees in Hin. rewrite Hfrees in Hin.
    apply List.in_map_iff in Hin as (b & Ha & Hb).
    apply List.filter_In in Hb as [Hb Hd]. unfold doomed in Hd.
    apply andb_true_iff in Hd as [Hf Hd]. apply negb_true_iff in Hf.
    destruct (Hyoung b Hb Ha Hf) as [Hrange Hlt].
    rewrite (due_in_range tps now b Hrange) in Hd. apply Z.leb_le in Hd. lia. }
  split; [exact Hnf |].
  apply apply_events_frame. intros ev Hev Hrel.
  destruct ev as [sz p | p | p]; cbn [released] in Hrel;
    [discriminate | |]; injection Hrel as ->.
  - now apply Hnf.
  - now apply (Hnd q).
Qed.

(** ** C1: retention *)

(** C1, the program at a concrete input (the vector of libstdc++, a clock
    in nanoseconds): one [new] at second 0, then a sweep at second 3.  The
    record of 16 is two seconds short of the window.  To keep it,
    [newBlocks.push_back] takes its storage from [operator new], which
    registers that storage; [memoryBlocks], full with its one record, grows
    for the registration and moves the record, and the sweep goes on with a
    block in released storage.  The sweep does not return with the record
    kept. *)
Theorem young_record_in_full_vector :
  let run := do_calls 1000000000 48 [24] doubling_allocs 2 in
  let first := (CallNew 4 0, [16; 1000; 1100; 1200]) in
  let sweep :=
    (CallCollectGarbage 3000000000 (fun _ => 3000000000), [48; 112]) in
  (exists w e,
      run [first] fresh = Some (Returns [16], w, e)
      /\ stored w = [mkBlock 16 4 0 false]
      /\ kept 1000000000 3000000000 (mkBlock 16 4 0 false) = true)
  /\ (exists w e, run [first; sweep] fresh = Some (Undefined, w, e))
  /\ (forall ps w e, run [first; sweep] fresh <> Some (Returns ps, w, e)).
Proof.
  intros run first sweep. split; [| split].
  - do 2 eexists. split; [reflexivity |]. split; reflexivity.
  - do 2 eexists. reflexivity.
  - intros ps w e. discriminate.
Qed.

(** ** C9: the stored records and the live ones *)

(** C9, the program at concrete inputs (the vector of libstdc++, a clock in
    nanoseconds).  Two [new]s, at seconds 0 and 4, and a sweep at second 5
    during which [malloc] refuses: the sweep frees 16, then
    [newBlocks.push_back] for the record of 32 throws [bad_alloc], and
    [memoryBlocks] is left as it was: the record of 16, freed, is still
    stored, its flag unset.  And after one [new], the sweep at second 3 moves
    [memoryBlocks] under its own loop, so that what it stores is not
    defined. *)
Theorem abandoned_sweep_keeps_freed_record :
  let run := do_calls 1000000000 48 [24] doubling_allocs 2 in
  let first := (CallNew 4 0, [16; 1000; 1100; 1200]) in
  let second := (CallNew 8 4000000000, [32; 1300]) in
  (exists w e,
      run [first; second;
           (CallCollectGarbage 5000000000 (fun _ => 5000000000), [])] fresh
      = Some (Throws_bad_alloc, w, e)
      /\ frees e = [16]
      /\ stored w = [mkBlock 16 4 0 false; mkBlock 32 8 4000000000 false]
      /\ find_address 16 (stored w) = true)
  /\ (exists w e,
        run [first;
             (CallCollectGarbage 3000000000 (fun _ => 3000000000), [48; 112])]
          fresh
        = Some (Undefined, w, e)).
Proof.
  intros run first second. split.
  - do 2 eexists. split; [reflexivity |]. repeat split.
  - do 2 eexists. reflexivity.
Qed.

(** ** C3: how often an address is released *)




(** ** C10: assignment of a raw pointer *)

(** C10. Let the handle [h] hold the non-null address [q], for which the
    registry stores the unflagged record [b].  The assignment of a raw
    pointer [p] to [h] makes [h] hold [p] and releases nothing: registry
    and heap are untouched and [b] is still stored.  A later sweep that
    returns keeps [b] while its age is below the window (and does not free
    [q] while all unflagged records of [q] are below it), and frees [q] and
    drops [b] once the age has reached it; the destructor of the registry,
    when it runs and returns, frees [q]. *)
Theorem raw_assign_keeps_custody (T : Type) (tps : positive)
    (sizeof_GarbageCollector : Z) (thread_allocs : list Z)
    (push_back_allocs : list MemoryBlock -> list Z) (s : Process T)
    (h : nat) (q p : Z) (b : MemoryBlock) :
  owns (owners s) h q ->
  q <> nullptr ->
  In b (memoryBlocks (gc s)) ->
  address b = q ->
  isFreed b = false ->
  let r := on_handles (smartptr_assign h p) s in
  let s1 := state_of r in
  owns (owners s1) h p
  /\ trace_of r = []
  /\ gc s1 = gc s
  /\ heap s1 = heap s
  /\ In b (memoryBlocks (gc s1))
  /\ (forall depth now clock flag answers w' e,
        collectGarbage tps sizeof_GarbageCollector thread_allocs
          push_back_allocs (S (S depth)) now clock
          {| instance := Some (gc s1); isRecursive := flag; arena := answers |}
        = Some (Returns tt, w', e) ->
        in_int64 (now - allocationTime b) ->
        (now - allocationTime b < retention_window tps -> In b (stored w'))
        /\ ((forall b', In b' (memoryBlocks (gc s1)) -> address b' = q ->
                        isFreed b' = false ->
                        in_int64 (now - allocationTime b')
                        /\ now - allocationTime b' < retention_window tps) ->
            ~ In (Free q) e /\ apply_events (heap s1) e !! q = heap s1 !! q)
        /\ (retention_window tps <= now - allocationTime b ->
            In (Free q) e
            /\ ~ In b (stored w')
            /\ apply_events (heap s1) e !! q = None))
  /\ (forall depth pending flag answers w' e,
        GarbageCollector_dtor tps sizeof_GarbageCollector thread_allocs
          push_back_allocs (S (S depth)) pending
          {| instance := Some (gc s1); isRecursive := flag; arena := answers |}
        = Some (Returns tt, w', e) ->
        In (Free q) e
        /\ stored w' = []
        /\ apply_events (heap s1) e !! q = None).
Proof.
  intros Hh Hq Hin Haddr Hflag r s1.
  assert (Hs1 : s1 = {| gc := gc s;
                        owners := alter (fun _ => mkPtr p) h (owners s);
                        heap := heap s |}) by reflexivity.
  rewrite Hs1. cbn [gc owners heap].
  split; [unfold owns in *; now rewrite lookup_alter_eq, Hh |].
  split; [reflexivity |]. split; [reflexivity |]. split; [reflexivity |].
  split; [exact Hin |]. split.
  - intros depth now clock flag answers w' e Hsweep Hrange.
    set (w := {| instance := Some (gc s); isRecursive := flag;
                 arena := answers |}) in Hsweep.
    pose proof (fun Hall =>
                  sweep_spares_young tps sizeof_GarbageCollector thread_allocs
                    push_back_allocs (heap s) q depth now clock w w' e (gc s)
                    eq_refl Hall Hsweep) as Hspared.
    destruct (sweep_shape tps sizeof_GarbageCollector thread_allocs
                push_back_allocs depth now clock w (gc s) eq_refl)
      as (o & w1 & e1 & Hr & _ & _ & _ & _ & Hret).
    rewrite Hr in Hsweep. injection Hsweep as -> -> ->.
    destruct (Hret eq_refl) as (Hi & Hfrees & _).
    unfold stored. rewrite Hi. cbn [memoryBlocks set_memoryBlocks].
    pose proof (due_in_range tps now b Hrange) as Hdue.
    split; [| split].
    + intros Hyoung. apply List.filter_In. split; [exact Hin |].
      unfold kept. rewrite Hflag, Hdue. cbn [negb andb].
      apply negb_true_iff, Z.leb_gt. exact Hyoung.
    + exact Hspared.
    + intros Hold.
      assert (Hd : doomed tps now b = true).
      { unfold doomed. rewrite Hflag, Hdue. cbn [negb andb].
        now apply Z.leb_le. }
      assert (Hfree : In (Free q) e).
      { apply in_frees. rewrite Hfrees. apply List.in_map_iff.
        exists b. split; [exact Haddr |]. apply List.filter_In. auto. }
      split; [exact Hfree | split].
      * intros Hk. apply List.filter_In in Hk as [_ Hk].
        unfold kept in Hk. unfold doomed in Hd.
        destruct (isFreed b), (due tps now b); discriminate.
      * now apply (apply_events_released T _ _ (Free q)).
  - intros depth pending flag answers w' e Hd.
    set (w := {| instance := Some (gc s); isRecursive := flag;
                 arena := answers |}) in Hd.
    assert (Hfree : In (Free q) e /\ stored w' = []).
    { unfold GarbageCollector_dtor in Hd. cbn [instance w] in Hd.
      destruct pending as [[now clock] |].
      - unfold on_thread in Hd.
        set (w0 := set_isRecursive false
                     (set_instance (Some (set_running false (gc s))) w)) in Hd.
        destruct (sweep_shape tps sizeof_GarbageCollector thread_allocs
                    push_back_allocs depth now clock w0 _ eq_refl)
          as (o & w1 & e1 & Hr & _ & _ & _ & _ & Hret).
        rewrite Hr in Hd. destruct o as [[] | |]; try discriminate.
        destruct (Hret eq_refl) as (Hi & Hfrees & _).
        cbn [instance set_isRecursive] in Hd. rewrite Hi in Hd.
        rewrite release_loop_eq in Hd. injection Hd as <- <-.
        split; [| reflexivity].
        cbn [memoryBlocks set_memoryBlocks set_running].
        destruct (doomed tps now b) eqn:Edoom.
        + apply List.in_or_app. left. apply in_frees. rewrite Hfrees.
          apply List.in_map_iff. exists b. split; [exact Haddr |].
          apply List.filter_In. auto.
        + apply List.in_or_app. right. apply List.in_map_iff.
          exists b. split; [unfold free_of; now rewrite Haddr |].
          apply List.filter_In. split.
          * apply List.filter_In. split; [exact Hin |].
            unfold kept. unfold doomed in Edoom. rewrite Hflag in *.
            cbn [negb andb] in *. now rewrite Edoom.
          * rewrite Haddr. apply negb_true_iff. now apply Z.eqb_neq.
      - cbn [instance set_instance] in Hd.
        rewrite release_loop_eq in Hd. injection Hd as <- <-.
        split; [| reflexivity]. cbn [app set_running memoryBlocks].
        apply List.in_map_iff. exists b.
        split; [unfold free_of; now rewrite Haddr |].
        apply List.filter_In. split; [exact Hin |].
        rewrite Haddr. apply negb_true_iff. now apply Z.eqb_neq. }
    destruct Hfree as [Hfree Hempty]. repeat split; try assumption.
    now apply (apply_events_released T _ _ (Free q)).
Qed.

(** The handle 0 holds 16, registered at second 0 (a clock in nanoseconds,
    the vector of libstdc++); after the assignment of 32 the sweep at second
    5 frees 16. *)
Lemma raw_assign_keeps_custody_witness :
  let g := {| period := 900; memoryBlocks := [mkBlock 16 8 0 false];
              running := true |} in
  let s := {| gc := g; owners := {[0%nat := mkPtr 16]}; heap := {[16 := tt]} |} in
  let s1 := state_of (on_handles (smartptr_assign 0 32) s) in
  owns (owners s1) 0 32
  /\ exists w' e,
       collectGarbage 1000000000 48 [24] doubling_allocs 2 5000000000
         (fun _ => 5000000000)
         {| instance := Some (gc s1); isRecursive := false; arena := [] |}
       = Some (Returns tt, w', e)
       /\ In (Free 16) e.
Proof.
  intros g s s1.
  assert (Hh : owns (owners s) 0 16) by reflexivity.
  assert (Hq : 16 <> nullptr) by discriminate.
  assert (Hin : In (mkBlock 16 8 0 false) (memoryBlocks (gc s)))
    by (left; reflexivity).
  destruct (raw_assign_keeps_custody unit 1000000000 48 [24] doubling_allocs
              s 0 16 32 (mkBlock 16 8 0 false) Hh Hq Hin eq_refl eq_refl)
    as (Howns & _ & _ & _ & _ & Hsweep & _).
  split; [exact Howns |].
  do 2 eexists. split; [reflexivity |].
  refine (proj1 (proj2 (proj2 (Hsweep 0%nat 5000000000 (fun _ => 5000000000)
                                 false [] _ _ eq_refl _)) _)).
  - vm_compute. split; [discriminate | reflexivity].
  - vm_compute. discriminate.
Defined.

(** * Further properties of the program *)

(** ** The handles *)

(** X9. Construction, destruction, assignment of a raw pointer and move
    construction of a handle call neither [free] nor [delete], whatever the
    handles hold. *)
Theorem handle_ops_without_release (op : handle_op) (hs : handles) :
  (forall this other, op <> HMoveAssign this other) ->
  trace_of (do_handle_op op hs) = [].
Proof. apply handle_op_silent. Qed.

Lemma handle_ops_without_release_witness :
  trace_of (do_handle_op (HDestroy 0) (<[0%nat := mkPtr 16]> ∅)) = [].
Proof.
  apply handle_ops_without_release. intros this other. discriminate.
Defined.

(** X10. What a move assignment between two existing handles releases: the
    address the destination held, by one [delete], when the destination is
    another object than the source and held a non-null pointer; nothing
    otherwise.  A handle assigned to itself keeps its pointer. *)
Theorem move_assign_release_exactly (this other : nat) (hs : handles)
    (q : Z) (o : smartptr) :
  owns hs this q ->
  hs !! other = Some o ->
  trace_of (smartptr_move_assign this other hs)
  = (if decide (this = other) then []
     else if q =? nullptr then [] else [Delete q])
  /\ (this = other -> state_of (smartptr_move_assign this other hs) = hs).
Proof.
  intros Ht Ho. destruct (decide (this = other)) as [-> | Hne].
  - unfold smartptr_move_assign, bind, get. unfold owns in Ht. rewrite Ht.
    destruct (decide (other = other)); [| contradiction]. split; reflexivity.
  - rewrite (smartptr_move_assign_eq this other hs (mkPtr q) o Hne Ht Ho).
    split; [reflexivity | contradiction].
Qed.

Lemma move_assign_release_exactly_witness :
  let hs : handles := <[0%nat := mkPtr nullptr]> {[1%nat := mkPtr 32]} in
  trace_of (smartptr_move_assign 0 1 hs) = [].
Proof.
  intros hs.
  exact (proj1 (move_assign_release_exactly 0 1 hs nullptr (mkPtr 32)
                  eq_refl eq_refl)).
Defined.

(** X11. Moving a pointer out of a handle [a] into a new handle [b] and
    moving it back by a move assignment restores [a], leaves [b] empty and
    every other handle as it was, and releases nothing. *)
Theorem move_out_and_back (a b : nat) (hs : handles) (p : Z) :
  owns hs a p ->
  a <> b ->
  let r1 := smartptr_move_ctor b a hs in
  let r2 := smartptr_move_assign a b (state_of r1) in
  trace_of r1 ++ trace_of r2 = []
  /\ owns (state_of r2) a p
  /\ owns (state_of r2) b nullptr
  /\ (forall h, h <> a -> h <> b -> state_of r2 !! h = hs !! h).
Proof.
  intros Ha Hab r1 r2. subst r1 r2.
  rewrite (smartptr_move_ctor_eq b a hs (mkPtr p) Ha).
  unfold state_of, trace_of. cbn [fst snd].
  set (hs1 := alter (fun _ => mkPtr nullptr) a (<[b := mkPtr (ptr (mkPtr p))]> hs)).
  assert (H1a : hs1 !! a = Some (mkPtr nullptr)).
  { unfold hs1. rewrite lookup_alter_eq, lookup_insert_ne by congruence.
    unfold owns in Ha. now rewrite Ha. }
  assert (H1b : hs1 !! b = Some (mkPtr p)).
  { unfold hs1. rewrite lookup_alter_ne by exact Hab. apply lookup_insert_eq. }
  rewrite (smartptr_move_assign_eq a b hs1 (mkPtr nullptr) (mkPtr p) Hab H1a H1b).
  unfold owns. cbn [fst snd ptr]. repeat split.
  - rewrite lookup_alter_ne by congruence. now rewrite lookup_alter_eq, H1a.
  - now rewrite lookup_alter_eq, lookup_alter_ne, H1b by congruence.
  - intros h Hha Hhb. rewrite !lookup_alter_ne by congruence.
    unfold hs1. rewrite lookup_alter_ne, lookup_insert_ne by congruence.
    reflexivity.
Qed.

Lemma move_out_and_back_witness :
  let hs : handles := {[0%nat := mkPtr 16]} in
  owns (state_of (smartptr_move_assign 0 1 (state_of (smartptr_move_ctor 1 0 hs))))
    0 16.
Proof.
  intros hs.
  assert (Ha : owns hs 0 16) by reflexivity.
  assert (Hab : 0%nat <> 1%nat) by discriminate.
  exact (proj1 (proj2 (move_out_and_back 0 1 hs 16 Ha Hab))).
Defined.

(** X12. [operator->] reads back the pointer a handle was constructed
    with or last assigned, changes nothing and releases nothing; assigning
    to a handle does not change what another handle holds. *)
Theorem arrow_reads_last_pointer (h : nat) (p : Z) (hs : handles) :
  result_of (smartptr_arrow h (state_of (smartptr_ctor h p hs))) = Some p
  /\ (is_Some (hs !! h) ->
      result_of (smartptr_arrow h (state_of (smartptr_assign h p hs))) = Some p)
  /\ (forall h', h' <> h ->
        result_of (smartptr_arrow h' (state_of (smartptr_assign h p hs)))
        = result_of (smartptr_arrow h' hs))
  /\ smartptr_arrow h hs = (ptr <$> hs !! h, hs, []).
Proof.
  unfold smartptr_arrow, smartptr_ctor, smartptr_assign, result_of, state_of,
    bind, get, put, ret.
  cbn [fst snd]. repeat split.
  - now rewrite lookup_insert_eq.
  - intros [x Hx]. now rewrite lookup_alter_eq, Hx.
  - intros h' Hne. now rewrite lookup_alter_ne by congruence.
Qed.

(** ** The allocation hook *)

(** X16. Outside the registration path, [operator new] throws [bad_alloc]
    exactly when the [malloc] for the caller's block is refused; it then
    has made no record and no further allocation, and has left the flag of
    the thread set. *)
Theorem bad_alloc_exactly_when_own_malloc_fails (sizeof_GarbageCollector : Z)
    (thread_allocs : list Z) (push_back_allocs : list MemoryBlock -> list Z)
    (depth : nat) (size now : Z) (w : World) :
  isRecursive w = false ->
  let r := operator_new sizeof_GarbageCollector thread_allocs push_back_allocs
             (S (S depth)) size now w in
  (result_of (malloc size w) = nullptr ->
   exists w', r = Some (Throws_bad_alloc, w', [Malloc size nullptr])
              /\ instance w' = instance w
              /\ isRecursive w' = true)
  /\ (result_of (malloc size w) <> nullptr ->
      forall w' e, r <> Some (Throws_bad_alloc, w', e)).
Proof.
  intros Hw r. subst r.
  destruct (malloc_any_flag size true w) as (_ & Hinst & Hflag & _).
  destruct (operator_new_top_shape sizeof_GarbageCollector thread_allocs
              push_back_allocs depth size now w Hw)
    as [[Hz Hr] | (Hnz & o & w' & e & Hr & Ho & _)].
  - split; [| contradiction]. intros _. eexists. split; [exact Hr |].
    split; assumption.
  - split; [contradiction |]. intros _ w'' e'' Habs.
    rewrite Hr in Habs. injection Habs as Habs _ _. contradiction.
Qed.

Lemma bad_alloc_exactly_when_own_malloc_fails_witness :
  let w := {| instance := None; isRecursive := false; arena := [] |} in
  exists w', operator_new 64 [24] (fun _ => []) 2 8 0 w
             = Some (Throws_bad_alloc, w', [Malloc 8 nullptr])
             /\ instance w' = instance w
             /\ isRecursive w' = true.
Proof.
  intros w.
  apply (proj1 (bad_alloc_exactly_when_own_malloc_fails 64 [24] (fun _ => [])
                  0 8 0 w eq_refl)).
  reflexivity.
Defined.

(** X17. After [operator new] has thrown [bad_alloc] on a thread, the flag
    of that thread stays set: every later call on the thread, whatever
    memory has become available, is a plain [malloc] that makes no record
    in the registry. *)
Theorem after_bad_alloc_nothing_is_registered (sizeof_GarbageCollector : Z)
    (thread_allocs : list Z) (push_back_allocs : list MemoryBlock -> list Z)
    (depth : nat) (size now : Z) (w : World) :
  isRecursive w = false ->
  result_of (malloc size w) = nullptr ->
  exists w' e,
    operator_new sizeof_GarbageCollector thread_allocs push_back_allocs
      (S depth) size now w = Some (Throws_bad_alloc, w', e)
    /\ forall depth' size' now' refill,
         exists w'',
           operator_new sizeof_GarbageCollector thread_allocs push_back_allocs
             (S depth') size' now'
             {| instance := instance w'; isRecursive := isRecursive w';
                arena := refill |}
           = Some (Returns (hd nullptr refill), w'',
                   [Malloc size' (hd nullptr refill)])
           /\ instance w'' = instance w
           /\ isRecursive w'' = true.
Proof.
  intros Hw Hnull.
  destruct (malloc_any_flag size true w) as (Hres & Hinst & Hflag & _).
  rewrite operator_new_S, Hw. cbv zeta.
  destruct (malloc size (set_isRecursive true w)) as [[p w1] e1].
  unfold result_of at 1 in Hres. unfold state_of in Hinst, Hflag.
  cbn [fst snd] in Hres, Hinst, Hflag.
  rewrite Hres, Hnull, Z.eqb_refl.
  exists w1, e1. split; [reflexivity |].
  intros depth' size' now' refill.
  rewrite operator_new_S. cbn [isRecursive]. rewrite Hflag.
  unfold malloc. cbn [arena instance isRecursive].
  destruct refill as [| q rest]; eexists; (split; [reflexivity |]);
    split; cbn [instance isRecursive]; first [assumption | reflexivity].
Qed.

Lemma after_bad_alloc_nothing_is_registered_witness :
  exists w' e,
    operator_new 64 [24] (fun _ => []) 1 8 0
      {| instance := Some GarbageCollector_ctor; isRecursive := false; arena := [] |}
    = Some (Throws_bad_alloc, w', e)
    /\ exists w'',
         operator_new 64 [24] (fun _ => []) 1 8 1
           {| instance := instance w'; isRecursive := isRecursive w';
              arena := [16] |}
         = Some (Returns 16, w'', [Malloc 8 16])
         /\ instance w'' = Some GarbageCollector_ctor.
Proof.
  destruct (after_bad_alloc_nothing_is_registered 64 [24] (fun _ => []) 0 8 0
              {| instance := Some GarbageCollector_ctor; isRecursive := false;
                 arena := [] |} eq_refl eq_refl) as (w' & e & H1 & H2).
  exists w', e. split; [exact H1 |].
  destruct (H2 0%nat 8 1 [16]) as (w'' & H3 & H4 & _).
  exists w''. split; [exact H3 | exact H4].
Defined.

(** X18. A call of [operator new] outside the registration path that
    returns a pointer returns the non-null pointer [malloc] gave for the
    caller's block, has cleared the flag again, and has added to the
    registry (made on first use) exactly one record, at the end: that of
    the returned pointer, with the size asked for and the clock reading.
    The blocks allocated on the way are not recorded. *)
Theorem successful_new_registers_caller_block (sizeof_GarbageCollector : Z)
    (thread_allocs : list Z) (push_back_allocs : list MemoryBlock -> list Z)
    (depth : nat) (size now : Z) (w w' : World) (p : Z) (e : list event) :
  isRecursive w = false ->
  operator_new sizeof_GarbageCollector thread_allocs push_back_allocs
    (S (S depth)) size now w = Some (Returns p, w', e) ->
  p <> nullptr
  /\ p = result_of (malloc size w)
  /\ isRecursive w' = false
  /\ exists g',
       instance w' = Some g'
       /\ memoryBlocks g'
          = match instance w with
            | Some g => memoryBlocks g
            | None => []
            end ++ [mkBlock p size now false].
Proof.
  intros Hw Hret.
  destruct (operator_new_top_shape sizeof_GarbageCollector thread_allocs
              push_back_allocs depth size now w Hw)
    as [[Hz Hr] | (Hnz & o & w2 & e2 & Hr & _ & _ & Hshape)].
  - rewrite Hr in Hret. discriminate.
  - rewrite Hr in Hret. injection Hret as -> -> ->.
    destruct (Hshape p eq_refl) as (Hp & Hf & Hi).
    rewrite Hp. repeat split; try assumption.
    eexists. split; [exact Hi |].
    rewrite createObject_eq. unfold state_of. cbn [fst snd].
    apply Z.eqb_neq in Hnz. rewrite Hnz. cbn [memoryBlocks set_memoryBlocks].
    now destruct (instance w).
Qed.

Lemma successful_new_registers_caller_block_witness :
  let w := {| instance := None; isRecursive := false;
              arena := [16; 112; 208; 304] |} in
  exists w' e,
    operator_new 64 [24] (fun bs => match bs with [] => [32] | _ => [] end)
      2 8 0 w = Some (Returns 16, w', e)
    /\ exists g', instance w' = Some g'
                  /\ memoryBlocks g' = [mkBlock 16 8 0 false].
Proof.
  intros w. do 2 eexists. split; [reflexivity |].
  exact (proj2 (proj2 (proj2
           (successful_new_registers_caller_block 64 [24]
              (fun bs => match bs with [] => [32] | _ => [] end)
              0 8 0 w _ 16 _ eq_refl eq_refl)))).
Defined.

(** ** The sweep and the destructor *)

(** X1. As long as the difference of the two clock readings fits the 64
    bits it is computed on, the test [duration >= 5] of the sweep, made on
    whole seconds that [duration_cast] truncates toward zero, is the test
    that the age in ticks is at least five seconds; an age of less than one
    second either way counts as zero, and a negative age (a clock set back)
    as zero or less. *)
Theorem expiry_test_in_ticks (tps : positive) (now t : Z) :
  in_int64 (now - t) ->
  ((5 <=? duration_cast_seconds tps (ticks_between now t)) = true
   <-> 5 * Z.pos tps <= now - t)
  /\ (Z.abs (now - t) < Z.pos tps ->
      duration_cast_seconds tps (ticks_between now t) = 0)
  /\ (now <= t -> duration_cast_seconds tps (ticks_between now t) <= 0).
Proof.
  intros Hrange. unfold ticks_between.
  rewrite int64_wrap_in_range by exact Hrange. split; [| split].
  - rewrite duration_cast_seconds_ge. apply Z.leb_le.
  - intros H. unfold duration_cast_seconds. apply Z.quot_small_iff; lia.
  - intros H. unfold duration_cast_seconds.
    apply Z.quot_le_upper_bound; lia.
Qed.

Lemma expiry_test_in_ticks_witness :
  duration_cast_seconds 1000000000 (ticks_between 100 900000000) = 0.
Proof.
  assert (H : in_int64 (100 - 900000000))
    by (vm_compute; split; [discriminate | reflexivity]).
  apply (proj1 (proj2 (expiry_test_in_ticks 1000000000 100 900000000 H))).
  vm_compute. reflexivity.
Defined.

Lemma filter_filter_same {A : Type} (p : A -> bool) (l : list A) :
  List.filter p (List.filter p l) = List.filter p l.
Proof.
  induction l as [| x l IH]; [reflexivity |].
  simpl. destruct (p x) eqn:E; simpl; [rewrite E; now f_equal | exact IH].
Qed.

Lemma filter_disjoint_nil {A : Type} (p q : A -> bool) (l : list A) :
  (forall x, q x = true -> p x = false) ->
  List.filter p (List.filter q l) = [].
Proof.
  intros H. induction l as [| x l IH]; [reflexivity |].
  simpl. destruct (q x) eqn:E; simpl; [rewrite (H x E) |]; exact IH.
Qed.

Lemma kept_not_doomed tps now b :
  kept tps now b = true -> doomed tps now b = false.
Proof.
  unfold kept, doomed. destruct (isFreed b), (due tps now b); simpl; congruence.
Qed.

(** X2. When a sweep has returned and a second sweep at the same clock
    reading returns too, the second one frees nothing and leaves the
    registry as the first one left it. *)
Theorem sweep_idempotent (tps : positive) (sizeof_GarbageCollector : Z)
    (thread_allocs : list Z) (push_back_allocs : list MemoryBlock -> list Z)
    (depth : nat) (now : Z) (clock1 clock2 : nat -> Z) (answers : list Z)
    (w w1 w2 : World) (e1 e2 : list event) (g : GarbageCollector) :
  instance w = Some g ->
  collectGarbage tps sizeof_GarbageCollector thread_allocs push_back_allocs
    (S (S depth)) now clock1 w = Some (Returns tt, w1, e1) ->
  collectGarbage tps sizeof_GarbageCollector thread_allocs push_back_allocs
    (S (S depth)) now clock2 (with_answers answers w1)
  = Some (Returns tt, w2, e2) ->
  frees e2 = [] /\ instance w2 = instance w1.
Proof.
  intros Hg H1 H2.
  destruct (sweep_shape tps sizeof_GarbageCollector thread_allocs
              push_back_allocs depth now clock1 w g Hg)
    as (o & w1' & e1' & Hr & _ & _ & _ & _ & Hret).
  rewrite Hr in H1. injection H1 as -> -> ->.
  destruct (Hret eq_refl) as (Hi1 & _ & _).
  assert (Hg1 : instance (with_answers answers w1)
                = Some (set_memoryBlocks
                          (List.filter (kept tps now) (memoryBlocks g)) g))
    by exact Hi1.
  destruct (sweep_shape tps sizeof_GarbageCollector thread_allocs
              push_back_allocs depth now clock2 (with_answers answers w1) _ Hg1)
    as (o2 & w2' & e2' & Hr2 & _ & _ & _ & _ & Hret2).
  rewrite Hr2 in H2. injection H2 as -> -> ->.
  destruct (Hret2 eq_refl) as (Hi2 & Hf2 & _).
  cbn [memoryBlocks set_memoryBlocks] in Hi2, Hf2.
  rewrite filter_filter_same in Hi2.
  rewrite (filter_disjoint_nil (doomed tps now) (kept tps now)) in Hf2
    by apply kept_not_doomed.
  split; [exact Hf2 |]. now rewrite Hi1, Hi2.
Qed.

(** Nine young records in a vector of libstdc++ (capacity 16), swept twice
    at second 3. *)
Lemma sweep_idempotent_witness :
  let sweep := collectGarbage 1000000000 48 [24] doubling_allocs 2 3000000000
                 (fun _ => 3000000000) in
  let g := {| period := 900;
              memoryBlocks :=
                map (fun n => mkBlock (16 * Z.of_nat n) 4 0 false) (seq 1 9);
              running := true |} in
  let w := {| instance := Some g; isRecursive := false;
              arena := [1000; 1100; 1200; 1300; 1400] |} in
  let w1 := {| instance := Some g; isRecursive := false; arena := [] |} in
  sweep w
  = Some (Returns tt, w1,
          [Malloc 32 1000; Malloc 64 1100; Malloc 128 1200; Malloc 256 1300;
           Malloc 512 1400])
  /\ sweep (with_answers [2000; 2100; 2200; 2300; 2400] w1)
     = Some (Returns tt, w1,
             [Malloc 32 2000; Malloc 64 2100; Malloc 128 2200; Malloc 256 2300;
              Malloc 512 2400])
  /\ frees [Malloc 32 2000; Malloc 64 2100; Malloc 128 2200; Malloc 256 2300;
            Malloc 512 2400] = [].
Proof.
  intros sweep g w w1.
  assert (H1 : sweep w
               = Some (Returns tt, w1,
                       [Malloc 32 1000; Malloc 64 1100; Malloc 128 1200;
                        Malloc 256 1300; Malloc 512 1400]))
    by (vm_compute; reflexivity).
  assert (H2 : sweep (with_answers [2000; 2100; 2200; 2300; 2400] w1)
               = Some (Returns tt, w1,
                       [Malloc 32 2000; Malloc 64 2100; Malloc 128 2200;
                        Malloc 256 2300; Malloc 512 2400]))
    by (vm_compute; reflexivity).
  split; [exact H1 | split; [exact H2 |]].
  exact (proj1 (sweep_idempotent 1000000000 48 [24] doubling_allocs 0
                  3000000000 _ _ [2000; 2100; 2200; 2300; 2400] w w1 w1 _ _ g
                  eq_refl H1 H2)).
Defined.

(** X4. A sweep that returns accounts for every record the vector held: a
    record is kept, or freed, or (when its flag is set) dropped without a
    call to [free]; the kept ones stay in their order and the records the
    sweep registered for its own storage are not among them.  The sweep
    calls [free] for unflagged stored records only, and leaves the settings
    of the registry and the flag of the thread. *)
Theorem sweep_accounts_for_every_record (tps : positive)
    (sizeof_GarbageCollector : Z) (thread_allocs : list Z)
    (push_back_allocs : list MemoryBlock -> list Z) (depth : nat) (now : Z)
    (clock : nat -> Z) (w w' : World) (e : list event) (g : GarbageCollector) :
  instance w = Some g ->
  collectGarbage tps sizeof_GarbageCollector thread_allocs push_back_allocs
    (S (S depth)) now clock w = Some (Returns tt, w', e) ->
  stored w' = List.filter (kept tps now) (memoryBlocks g)
  /\ frees e = map address (List.filter (doomed tps now) (memoryBlocks g))
  /\ (length (stored w') + length (frees e)
      + length (List.filter isFreed (memoryBlocks g))
      = length (memoryBlocks g))%nat
  /\ sublist (stored w') (memoryBlocks g)
  /\ (forall b, In b (stored w') -> isFreed b = false)
  /\ (forall a, In (Free a) e ->
        exists b, In b (memoryBlocks g) /\ address b = a /\ isFreed b = false)
  /\ (exists g', instance w' = Some g' /\ period g' = period g
                 /\ running g' = running g)
  /\ isRecursive w' = isRecursive w.
Proof.
  intros Hg Hsweep.
  destruct (sweep_shape tps sizeof_GarbageCollector thread_allocs
              push_back_allocs depth now clock w g Hg)
    as (o & w1 & e1 & Hr & _ & _ & _ & _ & Hret).
  rewrite Hr in Hsweep. injection Hsweep as -> -> ->.
  destruct (Hret eq_refl) as (Hi & Hfrees & Hflag).
  unfold stored. rewrite Hi, Hfrees. cbn [memoryBlocks set_memoryBlocks].
  split; [reflexivity |]. split; [reflexivity |]. split; [| split; [| split]].
  - rewrite length_map. clear Hr Hret Hi Hfrees Hg.
    induction (memoryBlocks g) as [| b l IH]; [reflexivity |].
    cbn [List.filter]. unfold kept at 1, doomed at 1.
    destruct (isFreed b), (due tps now b); simpl; lia.
  - clear Hr Hret Hi Hfrees Hg.
    induction (memoryBlocks g) as [| b l IH]; [constructor |].
    cbn [List.filter]. destruct (kept tps now b); now constructor.
  - intros b Hb. apply List.filter_In in Hb as [_ Hk]. unfold kept in Hk.
    now destruct (isFreed b).
  - split; [| split; [| exact Hflag]].
    + intros a Ha. apply in_frees in Ha. rewrite Hfrees in Ha.
      apply List.in_map_iff in Ha as (b & Hb & Hin).
      apply List.filter_In in Hin as [Hin Hd].
      exists b. unfold doomed in Hd. destruct (isFreed b); [discriminate | auto].
    + eexists. split; [reflexivity |]. split; reflexivity.
Qed.

(** Three records in a vector of libstdc++ (capacity 4), two of them five
    seconds old, swept at second 5. *)
Lemma sweep_accounts_for_every_record_witness :
  let g := {| period := 900;
              memoryBlocks := [mkBlock 16 4 0 false; mkBlock 32 4 0 false;
                               mkBlock 48 4 4000000000 false];
              running := true |} in
  let w := {| instance := Some g; isRecursive := false; arena := [1000] |} in
  exists w' e,
    collectGarbage 1000000000 48 [24] doubling_allocs 2 5000000000
      (fun _ => 5000000000) w = Some (Returns tt, w', e)
    /\ stored w' = [mkBlock 48 4 4000000000 false]
    /\ frees e = [16; 32].
Proof.
  intros g w. do 2 eexists. split; [reflexivity |].
  destruct (sweep_accounts_for_every_record 1000000000 48 [24] doubling_allocs
              0 5000000000 (fun _ => 5000000000) w _ _ g eq_refl eq_refl)
    as (Hs & Hf & _).
  split; [exact Hs | exact Hf].
Defined.

Lemma due_mono (tps : positive) (now1 now2 : Z) (b : MemoryBlock) :
  now1 <= now2 ->
  in_int64 (now1 - allocationTime b) ->
  in_int64 (now2 - allocationTime b) ->
  due tps now1 b = true -> due tps now2 b = true.
Proof.
  intros Hle H1 H2. rewrite !due_in_range by assumption.
  rewrite !Z.leb_le. lia.
Qed.

(** X3. A sweep absorbs an earlier one, as long as the ages fit their 64
    bits and the sweeps return: sweeping at [now1] and then at a later
    [now2] leaves the registry that a single sweep at [now2] leaves, and the
    two sweeps together free the same addresses, each as often, as the
    single one. *)
Theorem later_sweep_absorbs_earlier (tps : positive)
    (sizeof_GarbageCollector : Z) (thread_allocs : list Z)
    (push_back_allocs : list MemoryBlock -> list Z) (depth : nat)
    (now1 now2 : Z) (clock1 clock2 clock3 : nat -> Z) (answers : list Z)
    (w w1 w2 w3 : World) (e1 e2 e3 : list event) (g : GarbageCollector) :
  instance w = Some g ->
  now1 <= now2 ->
  Forall (fun b => in_int64 (now1 - allocationTime b)
                   /\ in_int64 (now2 - allocationTime b)) (memoryBlocks g) ->
  collectGarbage tps sizeof_GarbageCollector thread_allocs push_back_allocs
    (S (S depth)) now1 clock1 w = Some (Returns tt, w1, e1) ->
  collectGarbage tps sizeof_GarbageCollector thread_allocs push_back_allocs
    (S (S depth)) now2 clock2 (with_answers answers w1)
  = Some (Returns tt, w2, e2) ->
  collectGarbage tps sizeof_GarbageCollector thread_allocs push_back_allocs
    (S (S depth)) now2 clock3 w = Some (Returns tt, w3, e3) ->
  instance w2 = instance w3
  /\ Permutation (frees e1 ++ frees e2) (frees e3).
Proof.
  intros Hg Hle Hrange H1 H2 H3.
  destruct (sweep_shape tps sizeof_GarbageCollector thread_allocs
              push_back_allocs depth now1 clock1 w g Hg)
    as (o & w1' & e1' & Hr & _ & _ & _ & _ & Hret).
  rewrite Hr in H1. injection H1 as -> -> ->.
  destruct (Hret eq_refl) as (Hi1 & Hf1 & _). clear Hr Hret.
  destruct (sweep_shape tps sizeof_GarbageCollector thread_allocs
              push_back_allocs depth now2 clock3 w g Hg)
    as (o & w3' & e3' & Hr & _ & _ & _ & _ & Hret).
  rewrite Hr in H3. injection H3 as -> -> ->.
  destruct (Hret eq_refl) as (Hi3 & Hf3 & _). clear Hr Hret.
  assert (Hg1 : instance (with_answers answers w1)
                = Some (set_memoryBlocks
                          (List.filter (kept tps now1) (memoryBlocks g)) g))
    by exact Hi1.
  destruct (sweep_shape tps sizeof_GarbageCollector thread_allocs
              push_back_allocs depth now2 clock2 (with_answers answers w1) _ Hg1)
    as (o & w2' & e2' & Hr & _ & _ & _ & _ & Hret).
  rewrite Hr in H2. injection H2 as -> -> ->.
  destruct (Hret eq_refl) as (Hi2 & Hf2 & _). clear Hr Hret.
  cbn [memoryBlocks set_memoryBlocks] in Hi2, Hf2.
  rewrite Hi2, Hi3, Hf1, Hf2, Hf3. clear Hi1 Hi2 Hi3 Hf1 Hf2 Hf3 Hg1 Hg.
  assert (H : List.filter (kept tps now2)
                (List.filter (kept tps now1) (memoryBlocks g))
              = List.filter (kept tps now2) (memoryBlocks g)
              /\ Permutation
                   (map address (List.filter (doomed tps now1) (memoryBlocks g))
                    ++ map address
                         (List.filter (doomed tps now2)
                            (List.filter (kept tps now1) (memoryBlocks g))))
                   (map address
                      (List.filter (doomed tps now2) (memoryBlocks g)))).
  { induction Hrange as [| b l [Hb1 Hb2] _ [IHs IHt]];
      [split; [reflexivity | constructor] |].
    pose proof (due_mono tps now1 now2 b Hle Hb1 Hb2) as Hmono.
    pose proof (eq_refl : kept tps now1 b
                          = negb (isFreed b) && negb (due tps now1 b)) as K1.
    pose proof (eq_refl : kept tps now2 b
                          = negb (isFreed b) && negb (due tps now2 b)) as K2.
    pose proof (eq_refl : doomed tps now1 b
                          = negb (isFreed b) && due tps now1 b) as D1.
    pose proof (eq_refl : doomed tps now2 b
                          = negb (isFreed b) && due tps now2 b) as D2.
    destruct (isFreed b);
      destruct (due tps now1 b) eqn:E1;
      destruct (due tps now2 b) eqn:E2;
      cbn [negb andb] in K1, K2, D1, D2;
      try (specialize (Hmono eq_refl); discriminate);
      cbn [List.filter]; rewrite ?K1, ?D1;
      cbn [List.filter map app]; rewrite ?K2, ?D2;
      cbn [List.filter map app];
      (split; [first [exact IHs | now f_equal] |]);
      first [exact IHt | now constructor | idtac].
    apply Permutation_sym, Permutation_cons_app, Permutation_sym. exact IHt. }
  destruct H as [Hs Ht]. split; [now rewrite Hs | exact Ht].
Qed.

(** Three records of a vector of libstdc++, swept at seconds 5 and 9, and
    at second 9 alone. *)
Lemma later_sweep_absorbs_earlier_witness :
  let sweep := collectGarbage 1000000000 48 [24] doubling_allocs 2 in
  let blocks := [mkBlock 16 4 0 false; mkBlock 32 4 0 false;
                 mkBlock 48 4 4000000000 false] in
  let g := {| period := 900; memoryBlocks := blocks; running := true |} in
  let w := {| instance := Some g; isRecursive := false; arena := [1000] |} in
  let w1 := {| instance :=
                 Some {| period := 900;
                         memoryBlocks := [mkBlock 48 4 4000000000 false];
                         running := true |};
               isRecursive := false; arena := [] |} in
  let w2 := {| instance :=
                 Some {| period := 900; memoryBlocks := []; running := true |};
               isRecursive := false; arena := [] |} in
  sweep 5000000000 (fun _ => 5000000000) w
  = Some (Returns tt, w1, [Free 16; Free 32; Malloc 32 1000])
  /\ sweep 9000000000 (fun _ => 9000000000) (with_answers [] w1)
     = Some (Returns tt, w2, [Free 48])
  /\ Permutation ([16; 32] ++ [48]) [16; 32; 48].
Proof.
  intros sweep blocks g w w1 w2.
  assert (H1 : sweep 5000000000 (fun _ => 5000000000) w
               = Some (Returns tt, w1, [Free 16; Free 32; Malloc 32 1000]))
    by (vm_compute; reflexivity).
  assert (H2 : sweep 9000000000 (fun _ => 9000000000) (with_answers [] w1)
               = Some (Returns tt, w2, [Free 48]))
    by (vm_compute; reflexivity).
  assert (H3 : sweep 9000000000 (fun _ => 9000000000) w
               = Some (Returns tt, with_answers [1000] w2,
                       [Free 16; Free 32; Free 48]))
    by (vm_compute; reflexivity).
  assert (Hle : 5000000000 <= 9000000000) by (vm_compute; discriminate).
  assert (Hrange : Forall (fun b => in_int64 (5000000000 - allocationTime b)
                                    /\ in_int64 (9000000000 - allocationTime b))
                     (memoryBlocks g)).
  { repeat constructor; vm_compute; discriminate. }
  split; [exact H1 | split; [exact H2 |]].
  exact (proj2 (later_sweep_absorbs_earlier 1000000000 48 [24] doubling_allocs
                  0 5000000000 9000000000 (fun _ => 5000000000)
                  (fun _ => 9000000000) (fun _ => 9000000000) [] w w1 w2
                  (with_answers [1000] w2) _ _ _ g
                  eq_refl Hle Hrange H1 H2 H3)).
Defined.

(** X5. Between two calls of a run in which every call has returned, the
    flag of the thread is clear, and the registry, once it exists, has its
    period of 900 and its timer running and stores only records that are
    not flagged and not null: [checkExistingAllocation] does not find
    [nullptr]. *)
Theorem registry_invariants (tps : positive) (sizeof_GarbageCollector : Z)
    (thread_allocs : list Z) (push_back_allocs : list MemoryBlock -> list Z)
    (w : World) :
  reachable tps sizeof_GarbageCollector thread_allocs push_back_allocs w ->
  isRecursive w = false
  /\ forall g, instance w = Some g ->
       period g = 900
       /\ running g = true
       /\ Forall (fun b => isFreed b = false /\ address b <> nullptr)
            (memoryBlocks g)
       /\ result_of (checkExistingAllocation nullptr g) = false.
Proof.
  intros Hreach.
  destruct (reachable_settled tps sizeof_GarbageCollector thread_allocs
              push_back_allocs w Hreach) as [Hflag Hreg].
  split; [exact Hflag |]. intros g Hg. rewrite Hg in Hreg.
  destruct Hreg as (Hp & Hr & Hlive). repeat split; try assumption.
  unfold result_of, checkExistingAllocation, bind, get, ret. cbn [fst snd].
  apply find_address_false. intros b Hb.
  exact (proj2 (proj1 (List.Forall_forall _ _) Hlive b Hb)).
Qed.

Lemma registry_invariants_witness :
  let w := {| instance :=
                Some {| period := 900; memoryBlocks := [mkBlock 16 4 0 false];
                        running := true |};
              isRecursive := false; arena := [] |} in
  reachable 1000000000 48 [24] doubling_allocs w /\ isRecursive w = false.
Proof.
  intros w.
  assert (Hr : reachable 1000000000 48 [24] doubling_allocs w).
  { exists [(CallNew 4 0, [16; 1000; 1100; 1200])]. do 2 eexists.
    vm_compute. reflexivity. }
  split; [exact Hr |].
  exact (proj1 (registry_invariants 1000000000 48 [24] doubling_allocs w Hr)).
Defined.

Lemma filter_nonnull_live (bs : list MemoryBlock) :
  Forall live_block bs ->
  List.filter (fun b => negb (address b =? nullptr)) bs = bs.
Proof.
  induction 1 as [| b rest [_ Hb] _ IH]; [reflexivity |].
  cbn [List.filter]. apply Z.eqb_neq in Hb. rewrite Hb. cbn [negb].
  now rewrite IH.
Qed.

Lemma release_count_pos (a : Z) (e : list event) :
  In (Free a) e -> (1 <= release_count a e)%nat.
Proof.
  induction e as [| ev rest IH]; intros Hin; [destruct Hin |].
  destruct Hin as [-> | Hin].
  - rewrite release_count_cons_free, Z.eqb_refl. lia.
  - specialize (IH Hin). unfold release_count in *. cbn [List.filter].
    destruct (releases a ev); cbn [length]; lia.
Qed.

Section ExtraFacts.

Variable tps : positive.
Variable sizeof_GarbageCollector : Z.
Variable thread_allocs : list Z.
Variable push_back_allocs : list MemoryBlock -> list Z.

Local Abbreviation allocate_ :=
  (allocate_storage sizeof_GarbageCollector thread_allocs push_back_allocs).
Local Abbreviation loop_ :=
  (collect_loop tps sizeof_GarbageCollector thread_allocs push_back_allocs).
Local Abbreviation sweep_ :=
  (collectGarbage tps sizeof_GarbageCollector thread_allocs push_back_allocs).
Local Abbreviation dtor_ :=
  (GarbageCollector_dtor tps sizeof_GarbageCollector thread_allocs
     push_back_allocs).

(** A destructor that returns has freed the address of every unflagged,
    non-null record the registry stored. *)
Lemma dtor_frees_stored depth pending w g w' e b :
  instance w = Some g ->
  In b (memoryBlocks g) ->
  isFreed b = false ->
  address b <> nullptr ->
  dtor_ (S (S depth)) pending w = Some (Returns tt, w', e) ->
  In (Free (address b)) e.
Proof.
  intros Hg Hin Hflag Hnz Hd. unfold GarbageCollector_dtor in Hd.
  rewrite Hg in Hd. destruct pending as [[now clock] |].
  - unfold on_thread in Hd.
    set (w0 := set_isRecursive false
                 (set_instance (Some (set_running false g)) w)) in Hd.
    destruct (sweep_shape tps sizeof_GarbageCollector thread_allocs
                push_back_allocs depth now clock w0 _ eq_refl)
      as (o & w1 & e1 & Hr & _ & _ & _ & _ & Hret).
    rewrite Hr in Hd. destruct o as [[] | |]; try discriminate.
    destruct (Hret eq_refl) as (Hi & Hfrees & _).
    cbn [instance set_isRecursive] in Hd. rewrite Hi in Hd.
    rewrite release_loop_eq in Hd. injection Hd as <- <-.
    cbn [memoryBlocks set_memoryBlocks set_running].
    destruct (doomed tps now b) eqn:Edoom.
    + apply List.in_or_app. left. apply in_frees. rewrite Hfrees.
      apply List.in_map_iff. exists b. split; [reflexivity |].
      apply List.filter_In. auto.
    + apply List.in_or_app. right. apply List.in_map_iff.
      exists b. split; [reflexivity |].
      apply List.filter_In. split.
      * apply List.filter_In. split; [exact Hin |].
        unfold kept. unfold doomed in Edoom. rewrite Hflag in *.
        cbn [negb andb] in *. now rewrite Edoom.
      * apply negb_true_iff. now apply Z.eqb_neq.
  - cbn [instance set_instance] in Hd.
    rewrite release_loop_eq in Hd. injection Hd as <- <-.
    cbn [app set_running memoryBlocks].
    apply List.in_map_iff. exists b. split; [reflexivity |].
    apply List.filter_In. split; [exact Hin |].
    apply negb_true_iff. now apply Z.eqb_neq.
Qed.

(** As long as [newBlocks] is empty, a loop that reaches a record to keep
    does not return when the registration of the storage of [newBlocks]
    moves [memoryBlocks]. *)
Lemma loop_full_vector depth now clock blocks : forall c w g,
  instance w = Some g ->
  registration_moves push_back_allocs w = true ->
  push_back_allocs [] <> [] ->
  existsb (kept tps now) blocks = true ->
  forall r w' e,
    loop_ (S (S depth)) now clock blocks [] c w <> Some (Returns r, w', e).
Proof.
  induction blocks as [| b rest IH]; intros c w g Hg Hmoves Hfirst Hex r w' e;
    [discriminate |].
  cbn [collect_loop existsb] in *.
  assert (Hk : kept tps now b = negb (isFreed b) && negb (due tps now b))
    by reflexivity.
  assert (Hdue : due tps now b
                 = (5 <=? duration_cast_seconds tps
                            (ticks_between now (allocationTime b))))
    by reflexivity.
  rewrite Hk in Hex. rewrite <- Hdue.
  destruct (isFreed b).
  - cbn [negb andb orb] in Hex. now apply (IH c w g).
  - destruct (due tps now b).
    + cbn [negb andb orb] in Hex.
      pose proof (IH true w g Hg Hmoves Hfirst Hex) as Hrest.
      destruct (loop_ (S (S depth)) now clock rest [] true w)
        as [[[o w1] e1] |]; [| discriminate].
      destruct o as [r1 | |]; try discriminate.
      now destruct (Hrest r1 w1 e1).
    + cbn [length].
      destruct (allocate_shape sizeof_GarbageCollector thread_allocs
                  push_back_allocs depth (clock 0%nat) (push_back_allocs [])
                  w g Hg)
        as (o & w1 & e1 & Hr & _ & _ & _ & _ & Hm).
      rewrite Hr. destruct o as [m | |]; try discriminate.
      rewrite (Hm m eq_refl Hfirst Hmoves). discriminate.
Qed.

(** A loop over records none of which is kept allocates nothing. *)
Lemma loop_without_survivors depth now clock blocks : forall nb c w,
  forallb (fun b => negb (kept tps now b)) blocks = true ->
  exists c',
    loop_ depth now clock blocks nb c w
    = Some (Returns (nb, c'), w,
            map free_of (List.filter (doomed tps now) blocks)).
Proof.
  induction blocks as [| b rest IH]; intros nb c w Hall;
    [exists c; reflexivity |].
  cbn [collect_loop forallb List.filter] in *.
  apply andb_true_iff in Hall as [Hb Hall].
  assert (Hk : kept tps now b = negb (isFreed b) && negb (due tps now b))
    by reflexivity.
  assert (Hd : doomed tps now b = negb (isFreed b) && due tps now b)
    by reflexivity.
  assert (Hdue : due tps now b
                 = (5 <=? duration_cast_seconds tps
                            (ticks_between now (allocationTime b))))
    by reflexivity.
  rewrite Hk in Hb. rewrite Hd, <- Hdue.
  destruct (isFreed b).
  - cbn [negb andb]. now apply IH.
  - destruct (due tps now b); [| discriminate].
    cbn [negb andb map]. destruct (IH nb true w Hall) as [c' ->].
    now exists c'.
Qed.

End ExtraFacts.

(** X6. A destructor of the registry that returns, whether or not the
    timer thread sweeps once more while it is joined, has freed every
    address as often as the registry stored a record of it, and leaves the
    vector empty and [running] false; when no sweep is pending it frees the
    stored blocks in the order of the vector.  (The registry here stores
    unflagged, non-null records, as it does between the calls of a run.) *)
Theorem destructor_releases_all (tps : positive) (sizeof_GarbageCollector : Z)
    (thread_allocs : list Z) (push_back_allocs : list MemoryBlock -> list Z)
    (depth : nat) (pending : option (Z * (nat -> Z))) (w w' : World)
    (e : list event) (g : GarbageCollector) :
  instance w = Some g ->
  Forall live_block (memoryBlocks g) ->
  GarbageCollector_dtor tps sizeof_GarbageCollector thread_allocs
    push_back_allocs (S (S depth)) pending w = Some (Returns tt, w', e) ->
  (forall a, release_count a e = records_for a (memoryBlocks g))
  /\ instance w'
     = Some {| period := period g; memoryBlocks := []; running := false |}
  /\ (pending = None -> e = map free_of (memoryBlocks g)).
Proof.
  intros Hg Hlive Hd.
  destruct (dtor_shape tps sizeof_GarbageCollector thread_allocs
              push_back_allocs depth pending w g w' e Hg Hlive Hd)
    as [Hcount Hinst].
  split; [exact Hcount | split; [exact Hinst |]].
  intros ->. unfold GarbageCollector_dtor in Hd. rewrite Hg in Hd.
  cbn [instance set_instance] in Hd. rewrite release_loop_eq in Hd.
  injection Hd as _ <-. cbn [app memoryBlocks set_running].
  now rewrite filter_nonnull_live.
Qed.

(** A registry with three records; the timer thread, asleep when the
    destructor starts, sweeps once more at second 5. *)
Lemma destructor_releases_all_witness :
  let g := {| period := 900;
              memoryBlocks := [mkBlock 16 4 0 false; mkBlock 32 4 0 false;
                               mkBlock 48 4 4000000000 false];
              running := true |} in
  let w := {| instance := Some g; isRecursive := false; arena := [1000] |} in
  let w' := {| instance :=
                 Some {| period := 900; memoryBlocks := []; running := false |};
               isRecursive := false; arena := [] |} in
  GarbageCollector_dtor 1000000000 48 [24] doubling_allocs 2
    (Some (5000000000, fun _ => 5000000000)) w
  = Some (Returns tt, w', [Free 16; Free 32; Malloc 32 1000; Free 48])
  /\ release_count 48 [Free 16; Free 32; Malloc 32 1000; Free 48] = 1%nat.
Proof.
  intros g w w'.
  assert (Hd : GarbageCollector_dtor 1000000000 48 [24] doubling_allocs 2
                 (Some (5000000000, fun _ => 5000000000)) w
               = Some (Returns tt, w',
                       [Free 16; Free 32; Malloc 32 1000; Free 48]))
    by (vm_compute; reflexivity).
  assert (Hlive : Forall live_block (memoryBlocks g))
    by (repeat constructor; discriminate).
  split; [exact Hd |].
  exact (proj1 (destructor_releases_all 1000000000 48 [24] doubling_allocs 0
                  (Some (5000000000, fun _ => 5000000000)) w w' _ g
                  eq_refl Hlive Hd) 48).
Defined.

(** X8. After a sweep that returns, [checkExistingAllocation] finds an
    address exactly when the registry held a record of it younger than the
    window: an address whose records had all reached the window is no
    longer found.  (Unflagged, non-null records; ages within 64 bits.) *)
Theorem sweep_then_lookup (tps : positive) (sizeof_GarbageCollector : Z)
    (thread_allocs : list Z) (push_back_allocs : list MemoryBlock -> list Z)
    (depth : nat) (now : Z) (clock : nat -> Z) (w w' : World)
    (e : list event) (g : GarbageCollector) (a : Z) :
  instance w = Some g ->
  Forall live_block (memoryBlocks g) ->
  Forall (fun b => in_int64 (now - allocationTime b)) (memoryBlocks g) ->
  collectGarbage tps sizeof_GarbageCollector thread_allocs push_back_allocs
    (S (S depth)) now clock w = Some (Returns tt, w', e) ->
  exists g',
    instance w' = Some g'
    /\ (result_of (checkExistingAllocation a g') = true
        <-> exists b, In b (memoryBlocks g) /\ address b = a
                      /\ now - allocationTime b < retention_window tps).
Proof.
  intros Hg Hlive Hrange Hsweep.
  destruct (sweep_shape tps sizeof_GarbageCollector thread_allocs
              push_back_allocs depth now clock w g Hg)
    as (o & w1 & e1 & Hr & _ & _ & _ & _ & Hret).
  rewrite Hr in Hsweep. injection Hsweep as -> -> ->.
  destruct (Hret eq_refl) as (Hi & _ & _).
  eexists. split; [exact Hi |].
  unfold result_of, checkExistingAllocation, bind, get, ret.
  cbn [fst snd memoryBlocks set_memoryBlocks]. rewrite find_address_true.
  split.
  - intros (b & Hb & Ha). apply List.filter_In in Hb as [Hb Hk].
    exists b. repeat split; try assumption.
    pose proof (proj1 (List.Forall_forall _ _) Hrange b Hb) as Hin.
    unfold kept in Hk. rewrite (due_in_range tps now b Hin) in Hk.
    apply andb_true_iff in Hk as [_ Hk].
    now apply negb_true_iff, Z.leb_gt in Hk.
  - intros (b & Hb & Ha & Hyoung). exists b. split; [| exact Ha].
    apply List.filter_In. split; [exact Hb |].
    destruct (proj1 (List.Forall_forall _ _) Hlive b Hb) as [Hf _].
    pose proof (proj1 (List.Forall_forall _ _) Hrange b Hb) as Hin.
    unfold kept. rewrite Hf, (due_in_range tps now b Hin). cbn [negb andb].
    now apply negb_true_iff, Z.leb_gt.
Qed.

(** Three records, swept at second 5: 48, registered at second 4, is still
    found. *)
Lemma sweep_then_lookup_witness :
  let g := {| period := 900;
              memoryBlocks := [mkBlock 16 4 0 false; mkBlock 32 4 0 false;
                               mkBlock 48 4 4000000000 false];
              running := true |} in
  let w := {| instance := Some g; isRecursive := false; arena := [1000] |} in
  let g' := {| period := 900;
               memoryBlocks := [mkBlock 48 4 4000000000 false];
               running := true |} in
  let w' := {| instance := Some g'; isRecursive := false; arena := [] |} in
  collectGarbage 1000000000 48 [24] doubling_allocs 2 5000000000
    (fun _ => 5000000000) w
  = Some (Returns tt, w', [Free 16; Free 32; Malloc 32 1000])
  /\ exists g1,
       instance w' = Some g1
       /\ (result_of (checkExistingAllocation 48 g1) = true
           <-> exists b, In b (memoryBlocks g) /\ address b = 48
                         /\ 5000000000 - allocationTime b
                            < retention_window 1000000000).
Proof.
  intros g w g' w'.
  assert (Hs : collectGarbage 1000000000 48 [24] doubling_allocs 2 5000000000
                 (fun _ => 5000000000) w
               = Some (Returns tt, w', [Free 16; Free 32; Malloc 32 1000]))
    by (vm_compute; reflexivity).
  assert (Hlive : Forall live_block (memoryBlocks g))
    by (repeat constructor; discriminate).
  assert (Hrange : Forall (fun b => in_int64 (5000000000 - allocationTime b))
                     (memoryBlocks g))
    by (repeat constructor; vm_compute; discriminate).
  split; [exact Hs |].
  exact (sweep_then_lookup 1000000000 48 [24] doubling_allocs 0 5000000000
           (fun _ => 5000000000) w w' _ g 48 eq_refl Hlive Hrange Hs).
Defined.

(** ** The sweep and the handles *)

(** X13. A sweep that returns leaves alone the memory of an address all of
    whose unflagged records are younger than the window: it does not free
    the address, the object is still on the heap, and a handle that holds
    the address dereferences to the same object as before. *)
Theorem young_allocation_survives_sweep (T : Type) (tps : positive)
    (sizeof_GarbageCollector : Z) (thread_allocs : list Z)
    (push_back_allocs : list MemoryBlock -> list Z) (s : Process T)
    (h : nat) (q : Z) (depth : nat) (now : Z) (clock : nat -> Z)
    (flag : bool) (answers : list Z) (w' : World) (e : list event) :
  owns (owners s) h q ->
  (forall b, In b (memoryBlocks (gc s)) -> address b = q ->
             isFreed b = false ->
             in_int64 (now - allocationTime b)
             /\ now - allocationTime b < retention_window tps) ->
  collectGarbage tps sizeof_GarbageCollector thread_allocs push_back_allocs
    (S (S depth)) now clock
    {| instance := Some (gc s); isRecursive := flag; arena := answers |}
  = Some (Returns tt, w', e) ->
  ~ In (Free q) e
  /\ apply_events (heap s) e !! q = heap s !! q
  /\ forall g',
       smartptr_deref h {| gc := g'; owners := owners s;
                           heap := apply_events (heap s) e |}
       = smartptr_deref h s.
Proof.
  intros Hh Hyoung Hsweep.
  destruct (sweep_spares_young tps sizeof_GarbageCollector thread_allocs
              push_back_allocs (heap s) q depth now clock
              {| instance := Some (gc s); isRecursive := flag;
                 arena := answers |} w' e (gc s)
              eq_refl Hyoung Hsweep) as [Hnf Hheap].
  split; [exact Hnf | split; [exact Hheap |]].
  intros g'. unfold smartptr_deref. cbn [owners heap].
  unfold owns in Hh. rewrite Hh. exact Hheap.
Qed.

(** Three records, swept at second 5; the handle 0 holds 48, registered at
    second 4. *)
Lemma young_allocation_survives_sweep_witness :
  let g := {| period := 900;
              memoryBlocks := [mkBlock 16 4 0 false; mkBlock 32 4 0 false;
                               mkBlock 48 4 4000000000 false];
              running := true |} in
  let s := {| gc := g; owners := {[0%nat := mkPtr 48]};
              heap := <[16 := tt]> (<[32 := tt]> {[48 := tt]}) |} in
  let e := [Free 16; Free 32; Malloc 32 1000] in
  ~ In (Free 48) e /\ apply_events (heap s) e !! 48 = Some tt.
Proof.
  intros g s e.
  assert (Hh : owns (owners s) 0 48) by reflexivity.
  assert (Hyoung : forall b, In b (memoryBlocks (gc s)) -> address b = 48 ->
                     isFreed b = false ->
                     in_int64 (5000000000 - allocationTime b)
                     /\ 5000000000 - allocationTime b
                        < retention_window 1000000000).
  { intros b [<- | [<- | [<- | []]]] Ha _; try discriminate Ha.
    vm_compute. repeat split; discriminate. }
  assert (Hs : collectGarbage 1000000000 48 [24] doubling_allocs 2 5000000000
                 (fun _ => 5000000000)
                 {| instance := Some (gc s); isRecursive := false;
                    arena := [1000] |}
               = Some (Returns tt,
                       {| instance :=
                            Some {| period := 900;
                                    memoryBlocks :=
                                      [mkBlock 48 4 4000000000 false];
                                    running := true |};
                          isRecursive := false; arena := [] |}, e))
    by (vm_compute; reflexivity).
  destruct (young_allocation_survives_sweep unit 1000000000 48 [24]
              doubling_allocs s 0 48 0 5000000000 (fun _ => 5000000000)
              false [1000] _ e Hh Hyoung Hs) as (Hnf & Hheap & _).
  split; [exact Hnf |]. rewrite Hheap. reflexivity.
Defined.

(** X14. The sweep goes by age alone: when an unflagged record of an
    address has reached the window, a sweep that returns has freed the
    address although a handle still holds it; the handle keeps the pointer,
    and dereferencing it finds no object. *)
Theorem expired_allocation_dangles (T : Type) (tps : positive)
    (sizeof_GarbageCollector : Z) (thread_allocs : list Z)
    (push_back_allocs : list MemoryBlock -> list Z) (s : Process T)
    (h : nat) (b : MemoryBlock) (depth : nat) (now : Z) (clock : nat -> Z)
    (flag : bool) (answers : list Z) (w' : World) (e : list event) :
  In b (memoryBlocks (gc s)) ->
  isFreed b = false ->
  owns (owners s) h (address b) ->
  in_int64 (now - allocationTime b) ->
  retention_window tps <= now - allocationTime b ->
  collectGarbage tps sizeof_GarbageCollector thread_allocs push_back_allocs
    (S (S depth)) now clock
    {| instance := Some (gc s); isRecursive := flag; arena := answers |}
  = Some (Returns tt, w', e) ->
  In (Free (address b)) e
  /\ apply_events (heap s) e !! address b = None
  /\ forall g',
       let s' := {| gc := g'; owners := owners s;
                    heap := apply_events (heap s) e |} in
       owns (owners s') h (address b) /\ smartptr_deref h s' = None.
Proof.
  intros Hin Hflag Hh Hrange Hold Hsweep.
  set (w := {| instance := Some (gc s); isRecursive := flag;
               arena := answers |}) in Hsweep.
  destruct (sweep_shape tps sizeof_GarbageCollector thread_allocs
              push_back_allocs depth now clock w (gc s) eq_refl)
    as (o & w1 & e1 & Hr & _ & _ & _ & _ & Hret).
  rewrite Hr in Hsweep. injection Hsweep as -> -> ->.
  destruct (Hret eq_refl) as (_ & Hfrees & _).
  assert (Hfree : In (Free (address b)) e).
  { apply in_frees. rewrite Hfrees. apply List.in_map_iff.
    exists b. split; [reflexivity |]. apply List.filter_In.
    split; [exact Hin |]. unfold doomed.
    rewrite Hflag, (due_in_range tps now b Hrange). cbn [negb andb].
    now apply Z.leb_le. }
  assert (Hheap : apply_events (heap s) e !! address b = None)
    by now apply (apply_events_released T _ _ (Free (address b))).
  split; [exact Hfree | split; [exact Hheap |]].
  intros g' s'. split; [exact Hh |].
  unfold smartptr_deref, s'. cbn [owners heap].
  unfold owns in Hh. rewrite Hh. exact Hheap.
Qed.

(** Three records, swept at second 5; the handle 0 holds 16, registered at
    second 0. *)
Lemma expired_allocation_dangles_witness :
  let g := {| period := 900;
              memoryBlocks := [mkBlock 16 4 0 false; mkBlock 32 4 0 false;
                               mkBlock 48 4 4000000000 false];
              running := true |} in
  let s := {| gc := g; owners := {[0%nat := mkPtr 16]};
              heap := <[16 := tt]> (<[32 := tt]> {[48 := tt]}) |} in
  let e := [Free 16; Free 32; Malloc 32 1000] in
  In (Free 16) e /\ apply_events (heap s) e !! 16 = None.
Proof.
  intros g s e.
  assert (Hin : In (mkBlock 16 4 0 false) (memoryBlocks (gc s)))
    by (left; reflexivity).
  assert (Hh : owns (owners s) 0 (address (mkBlock 16 4 0 false)))
    by reflexivity.
  assert (Hrange : in_int64 (5000000000 - allocationTime (mkBlock 16 4 0 false)))
    by (vm_compute; split; [discriminate | reflexivity]).
  assert (Hold : retention_window 1000000000
                 <= 5000000000 - allocationTime (mkBlock 16 4 0 false))
    by (vm_compute; discriminate).
  assert (Hs : collectGarbage 1000000000 48 [24] doubling_allocs 2 5000000000
                 (fun _ => 5000000000)
                 {| instance := Some (gc s); isRecursive := false;
                    arena := [1000] |}
               = Some (Returns tt,
                       {| instance :=
                            Some {| period := 900;
                                    memoryBlocks :=
                                      [mkBlock 48 4 4000000000 false];
                                    running := true |};
                          isRecursive := false; arena := [] |}, e))
    by (vm_compute; reflexivity).
  destruct (expired_allocation_dangles unit 1000000000 48 [24]
              doubling_allocs s 0 (mkBlock 16 4 0 false) 0 5000000000
              (fun _ => 5000000000) false [1000] _ e Hin eq_refl Hh Hrange
              Hold Hs) as (Hfree & Hheap & _).
  split; [exact Hfree | exact Hheap].
Defined.

(** X15. A move assignment into a handle that holds a tracked address
    leads to a second release of the address: the handle deletes it, the
    registry keeps its record, and a later sweep that returns, made once
    the record has reached the window, frees the address again, as does
    the destructor of the registry if it runs and returns. *)
Theorem move_assign_leads_to_double_release (T : Type) (tps : positive)
    (sizeof_GarbageCollector : Z) (thread_allocs : list Z)
    (push_back_allocs : list MemoryBlock -> list Z) (s : Process T)
    (this other : nat) (o : smartptr) (b : MemoryBlock) :
  In b (memoryBlocks (gc s)) ->
  isFreed b = false ->
  address b <> nullptr ->
  owns (owners s) this (address b) ->
  owners s !! other = Some o ->
  this <> other ->
  let r1 := on_handles (smartptr_move_assign this other) s in
  trace_of r1 = [Delete (address b)]
  /\ gc (state_of r1) = gc s
  /\ (forall depth now clock flag answers w' e,
        collectGarbage tps sizeof_GarbageCollector thread_allocs
          push_back_allocs (S (S depth)) now clock
          {| instance := Some (gc (state_of r1)); isRecursive := flag;
             arena := answers |}
        = Some (Returns tt, w', e) ->
        in_int64 (now - allocationTime b) ->
        retention_window tps <= now - allocationTime b ->
        In (Free (address b)) e
        /\ (2 <= release_count (address b) (trace_of r1 ++ e))%nat)
  /\ (forall depth pending flag answers w' e,
        GarbageCollector_dtor tps sizeof_GarbageCollector thread_allocs
          push_back_allocs (S (S depth)) pending
          {| instance := Some (gc (state_of r1)); isRecursive := flag;
             arena := answers |}
        = Some (Returns tt, w', e) ->
        In (Free (address b)) e
        /\ (2 <= release_count (address b) (trace_of r1 ++ e))%nat).
Proof.
  intros Hin Hflag Hnz Hthis Hother Hne r1.
  assert (H1 : r1 = (tt,
                     {| gc := gc s;
                        owners := alter (fun _ => mkPtr nullptr) other
                                    (alter (fun _ => mkPtr (ptr o)) this
                                       (owners s));
                        heap := delete (address b) (heap s) |},
                     [Delete (address b)])).
  { subst r1. unfold on_handles.
    rewrite (smartptr_move_assign_eq this other (owners s)
               (mkPtr (address b)) o Hne Hthis Hother).
    cbn [ptr]. apply Z.eqb_neq in Hnz. now rewrite Hnz. }
  rewrite H1. unfold state_of, trace_of. cbn [fst snd gc].
  assert (Hcount : forall e, In (Free (address b)) e ->
            (2 <= release_count (address b) ([Delete (address b)] ++ e))%nat).
  { intros e He. apply release_count_pos in He.
    rewrite release_count_app. unfold release_count at 1.
    cbn [List.filter]. unfold releases at 1. cbn [released].
    rewrite Z.eqb_refl. cbn [length List.filter]. lia. }
  split; [reflexivity | split; [reflexivity | split]].
  - intros depth now clock flag answers w' e Hsweep Hrange Hold.
    set (w := {| instance := Some (gc s); isRecursive := flag;
                 arena := answers |}) in Hsweep.
    destruct (sweep_shape tps sizeof_GarbageCollector thread_allocs
                push_back_allocs depth now clock w (gc s) eq_refl)
      as (o' & w1 & e1 & Hr & _ & _ & _ & _ & Hret).
    rewrite Hr in Hsweep. injection Hsweep as -> -> ->.
    destruct (Hret eq_refl) as (_ & Hfrees & _).
    assert (Hfree : In (Free (address b)) e).
    { apply in_frees. rewrite Hfrees. apply List.in_map_iff.
      exists b. split; [reflexivity |]. apply List.filter_In.
      split; [exact Hin |]. unfold doomed.
      rewrite Hflag, (due_in_range tps now b Hrange). cbn [negb andb].
      now apply Z.leb_le. }
    split; [exact Hfree | now apply Hcount].
  - intros depth pending flag answers w' e Hd.
    assert (Hfree : In (Free (address b)) e).
    { exact (dtor_frees_stored tps sizeof_GarbageCollector thread_allocs
               push_back_allocs depth pending
               {| instance := Some (gc s); isRecursive := flag;
                  arena := answers |} (gc s) w' e b
               eq_refl Hin Hflag Hnz Hd). }
    split; [exact Hfree | now apply Hcount].
Qed.

(** The handle 0 holds 16, registered at second 0 with two other blocks;
    after a move assignment from the handle 1 the sweep at second 5 frees
    16 again. *)
Lemma move_assign_leads_to_double_release_witness :
  let g := {| period := 900;
              memoryBlocks := [mkBlock 16 4 0 false; mkBlock 32 4 0 false;
                               mkBlock 48 4 4000000000 false];
              running := true |} in
  let s := {| gc := g;
              owners := <[0%nat := mkPtr 16]> {[1%nat := mkPtr 32]};
              heap := <[16 := tt]> (<[32 := tt]> {[48 := tt]}) |} in
  let r1 := on_handles (smartptr_move_assign 0 1) s in
  trace_of r1 = [Delete 16]
  /\ (2 <= release_count 16
             (trace_of r1 ++ [Free 16; Free 32; Malloc 32 1000]))%nat.
Proof.
  intros g s r1.
  assert (Hin : In (mkBlock 16 4 0 false) (memoryBlocks (gc s)))
    by (left; reflexivity).
  assert (Hnz : address (mkBlock 16 4 0 false) <> nullptr) by discriminate.
  assert (Hne : 0%nat <> 1%nat) by discriminate.
  destruct (move_assign_leads_to_double_release unit 1000000000 48 [24]
              doubling_allocs s 0 1 (mkPtr 32) (mkBlock 16 4 0 false)
              Hin eq_refl Hnz eq_refl eq_refl Hne)
    as (Htrace & _ & Hsweep & _).
  split; [exact Htrace |].
  refine (proj2 (Hsweep 0%nat 5000000000 (fun _ => 5000000000) false [1000]
                   {| instance :=
                        Some {| period := 900;
                                memoryBlocks :=
                                  [mkBlock 48 4 4000000000 false];
                                running := true |};
                      isRecursive := false; arena := [] |}
                   [Free 16; Free 32; Malloc 32 1000] _ _ _)).
  - vm_compute. reflexivity.
  - vm_compute. split; [discriminate | reflexivity].
  - vm_compute. discriminate.
Defined.

(** ** Sweeps that do not complete, and sweeps that allocate nothing *)

(** X20. A sweep does not return when it runs on a thread outside the
    registration path, the vector [memoryBlocks] is full, and some record
    is to be kept: the first [newBlocks.push_back] takes storage from
    [operator new], whose registration grows [memoryBlocks] and so moves
    its elements under the loop; what is left is the exception of a failed
    allocation or undefined behaviour. *)
Theorem sweep_of_full_vector_does_not_return (tps : positive)
    (sizeof_GarbageCollector : Z) (thread_allocs : list Z)
    (push_back_allocs : list MemoryBlock -> list Z) (depth : nat) (now : Z)
    (clock : nat -> Z) (w : World) (g : GarbageCollector) :
  instance w = Some g ->
  isRecursive w = false ->
  needs_growth push_back_allocs [] = true ->
  needs_growth push_back_allocs (memoryBlocks g) = true ->
  existsb (kept tps now) (memoryBlocks g) = true ->
  exists o w' e,
    collectGarbage tps sizeof_GarbageCollector thread_allocs push_back_allocs
      (S (S depth)) now clock w = Some (o, w', e)
    /\ o <> Returns tt.
Proof.
  intros Hg Hflag Hfirst Hfull Hex.
  destruct (sweep_shape tps sizeof_GarbageCollector thread_allocs
              push_back_allocs depth now clock w g Hg)
    as (o & w1 & e1 & Hr & _).
  exists o, w1, e1. split; [exact Hr |]. intros ->.
  unfold collectGarbage in Hr. rewrite Hg in Hr.
  assert (Hmoves : registration_moves push_back_allocs w = true).
  { unfold registration_moves. now rewrite Hflag, Hg, Hfull. }
  assert (Hne : push_back_allocs [] <> []).
  { unfold needs_growth in Hfirst.
    destruct (push_back_allocs []); [discriminate Hfirst | discriminate]. }
  pose proof (loop_full_vector tps sizeof_GarbageCollector thread_allocs
                push_back_allocs depth now clock (memoryBlocks g) false w g
                Hg Hmoves Hne Hex) as Hloop.
  destruct (collect_loop tps sizeof_GarbageCollector thread_allocs
              push_back_allocs (S (S depth)) now clock (memoryBlocks g) []
              false w) as [[[o w2] e2] |]; [| discriminate].
  destruct o as [r | |]; try discriminate.
  now destruct (Hloop r w2 e2).
Qed.

(** The vector of libstdc++ with two records, one of them young, swept at
    second 5. *)
Lemma sweep_of_full_vector_does_not_return_witness :
  let g := {| period := 900;
              memoryBlocks := [mkBlock 16 4 0 false;
                               mkBlock 32 4 4000000000 false];
              running := true |} in
  let w := {| instance := Some g; isRecursive := false;
              arena := [1000; 1100] |} in
  exists o w' e,
    collectGarbage 1000000000 48 [24] doubling_allocs 2 5000000000
      (fun _ => 5000000000) w = Some (o, w', e)
    /\ o <> Returns tt.
Proof.
  intros g w.
  exact (sweep_of_full_vector_does_not_return 1000000000 48 [24]
           doubling_allocs 0 5000000000 (fun _ => 5000000000) w g
           eq_refl eq_refl eq_refl eq_refl eq_refl).
Defined.

(** X21. A sweep that ends in the exception of a failed allocation has
    not replaced [memoryBlocks]: every record the registry stored is still
    stored, the unflagged records of the addresses the sweep has freed
    among them, and the flag of the sweeping thread is left set. *)
Theorem abandoned_sweep_leaves_records (tps : positive)
    (sizeof_GarbageCollector : Z) (thread_allocs : list Z)
    (push_back_allocs : list MemoryBlock -> list Z) (depth : nat) (now : Z)
    (clock : nat -> Z) (w w' : World) (e : list event)
    (g : GarbageCollector) :
  instance w = Some g ->
  collectGarbage tps sizeof_GarbageCollector thread_allocs push_back_allocs
    (S (S depth)) now clock w = Some (Throws_bad_alloc, w', e) ->
  isRecursive w' = true
  /\ (exists extra, stored w' = memoryBlocks g ++ extra)
  /\ (forall a, In (Free a) e ->
        exists b, In b (stored w') /\ address b = a /\ isFreed b = false).
Proof.
  intros Hg Hsweep.
  destruct (sweep_shape tps sizeof_GarbageCollector thread_allocs
              push_back_allocs depth now clock w g Hg)
    as (o & w1 & e1 & Hr & [rest Hpre] & _ & _ & Hthrow & _).
  rewrite Hr in Hsweep. injection Hsweep as -> -> ->.
  destruct (Hthrow eq_refl)
    as [(g0 & g1 & H0 & H1 & _ & _ & extra & Hext) Hset].
  rewrite Hg in H0. injection H0 as <-.
  assert (Hstored : stored w' = memoryBlocks g ++ extra)
    by (unfold stored; now rewrite H1).
  split; [exact Hset | split; [now exists extra |]].
  intros a Ha. apply in_frees in Ha.
  assert (Hin : In a (map address
                        (List.filter (doomed tps now) (memoryBlocks g))))
    by (rewrite Hpre; apply List.in_or_app; now left).
  apply List.in_map_iff in Hin as (b & Hb & Hin).
  apply List.filter_In in Hin as [Hin Hd].
  exists b. split; [rewrite Hstored; apply List.in_or_app; now left |].
  split; [exact Hb |]. unfold doomed in Hd.
  apply andb_true_iff in Hd as [Hf _]. now apply negb_true_iff in Hf.
Qed.

(** Three records, swept at second 5 when no memory is left for
    [newBlocks]: 16 and 32 are freed and their records stay. *)
Lemma abandoned_sweep_leaves_records_witness :
  let blocks := [mkBlock 16 4 0 false; mkBlock 32 4 0 false;
                 mkBlock 48 4 4000000000 false] in
  let g := {| period := 900; memoryBlocks := blocks; running := true |} in
  let w := {| instance := Some g; isRecursive := false; arena := [] |} in
  let w' := {| instance := Some g; isRecursive := true; arena := [] |} in
  collectGarbage 1000000000 48 [24] doubling_allocs 2 5000000000
    (fun _ => 5000000000) w
  = Some (Throws_bad_alloc, w', [Free 16; Free 32; Malloc 32 0])
  /\ isRecursive w' = true.
Proof.
  intros blocks g w w'.
  assert (Hs : collectGarbage 1000000000 48 [24] doubling_allocs 2 5000000000
                 (fun _ => 5000000000) w
               = Some (Throws_bad_alloc, w', [Free 16; Free 32; Malloc 32 0]))
    by (vm_compute; reflexivity).
  split; [exact Hs |].
  exact (proj1 (abandoned_sweep_leaves_records 1000000000 48 [24]
                  doubling_allocs 0 5000000000 (fun _ => 5000000000) w w' _ g
                  eq_refl Hs)).
Defined.

(** X22. A sweep that finds no record to keep asks [operator new] for
    nothing: in any state in which the registry exists, full vector or not,
    memory left or not, it returns, having called [free] for the unflagged
    records in the order of the vector, and leaves the vector empty and the
    settings of the registry, the flag of the thread and the state of the
    allocator as they were. *)
Theorem sweep_without_survivors (tps : positive)
    (sizeof_GarbageCollector : Z) (thread_allocs : list Z)
    (push_back_allocs : list MemoryBlock -> list Z) (depth : nat) (now : Z)
    (clock : nat -> Z) (w : World) (g : GarbageCollector) :
  instance w = Some g ->
  forallb (fun b => negb (kept tps now b)) (memoryBlocks g) = true ->
  exists e,
    collectGarbage tps sizeof_GarbageCollector thread_allocs push_back_allocs
      depth now clock w
    = Some (Returns tt, set_instance (Some (set_memoryBlocks [] g)) w, e)
    /\ frees e
       = map address (List.filter (fun b => negb (isFreed b)) (memoryBlocks g))
    /\ (forall sz p, ~ In (Malloc sz p) e).
Proof.
  intros Hg Hall. unfold collectGarbage. rewrite Hg.
  destruct (loop_without_survivors tps sizeof_GarbageCollector thread_allocs
              push_back_allocs depth now clock (memoryBlocks g) [] false w
              Hall) as [c' ->].
  rewrite Hg. cbn [fst]. eexists. split; [reflexivity |].
  clear Hg. split.
  - induction (memoryBlocks g) as [| b rest IH]; [reflexivity |].
    cbn [forallb] in Hall. apply andb_true_iff in Hall as [Hb Hall].
    cbn [List.filter]. unfold kept in Hb. unfold doomed at 1.
    destruct (isFreed b); cbn [negb andb]; [now apply IH |].
    destruct (due tps now b); [| discriminate Hb].
    cbn [map]. unfold free_of at 1. rewrite frees_cons_free.
    f_equal. now apply IH.
  - intros sz p Hin. apply List.in_map_iff in Hin as (b & Hb & _).
    discriminate Hb.
Qed.

(** A full vector of two old records, swept at second 5 without any
    memory left. *)
Lemma sweep_without_survivors_witness :
  let g := {| period := 900;
              memoryBlocks := [mkBlock 16 4 0 false; mkBlock 32 4 0 false];
              running := true |} in
  let w := {| instance := Some g; isRecursive := false; arena := [] |} in
  exists e,
    collectGarbage 1000000000 48 [24] doubling_allocs 0 5000000000
      (fun _ => 5000000000) w
    = Some (Returns tt, set_instance (Some (set_memoryBlocks [] g)) w, e)
    /\ frees e = [16; 32].
Proof.
  intros g w.
  destruct (sweep_without_survivors 1000000000 48 [24] doubling_allocs 0
              5000000000 (fun _ => 5000000000) w g eq_refl eq_refl)
    as (e & Hs & Hf & _).
  exists e. split; [exact Hs | exact Hf].
Defined.
